(** * json_navigator: path-addressed document, lazy tree and leaf operations

    A shallow embedding of [src/json_navigator.py].  Python values are
    rendered as follows.

    - [str] is a Rocq [string] holding the UTF-8 encoding of the text, so a
      code point is a lead byte followed by its continuation bytes;
    - [bytes] is [list byte];
    - [int] is [Z], with Python's negative indexing written out, and
      [float] is a binary64 float;
    - [dict] is an association list in insertion order (first binding wins,
      assignment to an existing key keeps its position); its keys are
      steps, because [set_by_path] can assign under an integer key;
    - an in-place mutation of the document is a function from the old
      document to the new one, and a raised exception is the [Raise] branch
      of [res].  An exception that leaves a handler of the application ends
      the run, so no state comes with it.

    The library functions that the program calls and whose behaviour is
    not fixed by the language ([json.loads], [json.dumps],
    [base64.b64decode]) are the fields of the class [PyLib]; [py] is an
    executable instance.  [rich.pretty.pretty_repr], which only the display
    operation calls, is a variable of the section that defines it. *)

From Stdlib Require Import List String Ascii ZArith Lia Bool Sorted.
From Stdlib Require Import Strings.Byte DecimalString.
From Stdlib Require Import Floats.PrimFloat.
Import ListNotations.

(* ================================================================== *)
(** * Python strings *)

Module PyStr.

Local Open Scope string_scope.

(** The characters that string literals cannot hold directly. *)
Definition dq : string := String (ascii_of_nat 34) "".
Definition nl : string := String (ascii_of_nat 10) "".

Definition is_continuation (c : ascii) : bool :=
  let n := N_of_ascii c in ((128 <=? n) && (n <? 192))%N.

Definition starts_continuation (s : string) : bool :=
  match s with
  | String c _ => is_continuation c
  | EmptyString => false
  end.

(** The code points of a string, each as the string of its bytes. *)
Fixpoint code_points (s : string) : list string :=
  match s with
  | EmptyString => []
  | String c rest =>
      match code_points rest with
      | hd :: tl =>
          if starts_continuation hd then String c hd :: tl
          else String c "" :: hd :: tl
      | [] => [String c ""]
      end
  end.

(** [s.startswith(prefix)] *)
Definition startswith (s prefix : string) : bool := String.prefix prefix s.

(** [str.isspace] on one code point: the code points Python strips. *)
Definition is_space (cp : string) : bool :=
  match list_byte_of_string cp with
  | [b] => let n := Byte.to_N b in
           (((9 <=? n) && (n <=? 13)) || ((28 <=? n) && (n <=? 32)))%N
  | [x; y] => (Byte.to_N x =? 194)%N
              && ((Byte.to_N y =? 133) || (Byte.to_N y =? 160))%N
  | [x; y; z] =>
      let '(a, b, c) := (Byte.to_N x, Byte.to_N y, Byte.to_N z) in
      (((a =? 225) && (b =? 154) && (c =? 128))
       || ((a =? 226) && (b =? 128)
           && (((128 <=? c) && (c <=? 138)) || (c =? 168) || (c =? 169)
               || (c =? 175)))
       || ((a =? 226) && (b =? 129) && (c =? 159))
       || ((a =? 227) && (b =? 128) && (c =? 128)))%N
  | _ => false
  end.

Fixpoint drop_spaces (cps : list string) : list string :=
  match cps with
  | cp :: rest => if is_space cp then drop_spaces rest else cps
  | [] => []
  end.

(** [s.lstrip()] *)
Definition lstrip (s : string) : string :=
  String.concat "" (drop_spaces (code_points s)).

(** [str(i)] for an [int]. *)
Definition str_of_int (i : Z) : string := NilZero.string_of_int (Z.to_int i).

Definition hex_digit (n : N) : string :=
  String.substring (N.to_nat n) 1 "0123456789abcdef".

Fixpoint hex_digits (width : nat) (n : N) : string :=
  match width with
  | O => ""
  | S w => hex_digits w (n / 16) ++ hex_digit (n mod 16)
  end.

Fixpoint hex_width (fuel : nat) (n : N) : nat :=
  match fuel with
  | O => 1
  | S f => if (n <? 16)%N then 1 else S (hex_width f (n / 16))
  end.

(** [f"{n:0{width}x}"]: at least [width] digits, more when [n] needs them. *)
Definition format_hex (width : nat) (n : N) : string :=
  hex_digits (Nat.max width (hex_width (N.to_nat n) n)) n.

Fixpoint spaces (n : nat) : string :=
  match n with
  | O => ""
  | S m => " " ++ spaces m
  end.

(** [f"{s:<{width}}"]: left-aligned, padded with spaces. *)
Definition ljust (width : nat) (s : string) : string :=
  s ++ spaces (width - List.length (code_points s)).

(** [sep.join(parts)] *)
Definition join (sep : string) (parts : list string) : string :=
  String.concat sep parts.

(** The line boundaries of [str.splitlines]: LF, VT, FF, FS, GS, RS, NEL,
    LINE SEPARATOR and PARAGRAPH SEPARATOR; CR is treated apart because CR LF
    is one boundary. *)
Definition is_linebreak (cp : string) : bool :=
  match list_byte_of_string cp with
  | [b] => let n := Byte.to_N b in
           ((n =? 10) || (n =? 11) || (n =? 12)
            || ((28 <=? n) && (n <=? 30)))%N
  | [x; y] => ((Byte.to_N x =? 194) && (Byte.to_N y =? 133))%N
  | [x; y; z] => ((Byte.to_N x =? 226) && (Byte.to_N y =? 128)
                  && ((Byte.to_N z =? 168) || (Byte.to_N z =? 169)))%N
  | _ => false
  end.

Definition cr : string := String (ascii_of_nat 13) "".

Fixpoint split_at_breaks (cur : string) (cps : list string) : list string :=
  match cps with
  | [] => if String.eqb cur "" then [] else [cur]
  | cp :: rest =>
      if String.eqb cp cr then
        match rest with
        | cp' :: rest' =>
            if String.eqb cp' nl then cur :: split_at_breaks "" rest'
            else cur :: split_at_breaks "" rest
        | [] => [cur]
        end
      else if is_linebreak cp then cur :: split_at_breaks "" rest
      else split_at_breaks (cur ++ cp) rest
  end.

(** [text.splitlines()] *)
Definition splitlines (text : string) : list string :=
  split_at_breaks "" (code_points text).

(** Insertion into a list sorted by [key], before the items with an equal
    key. *)
Fixpoint insert_by {A : Type} (key : A -> string) (x : A) (l : list A) : list A :=
  match l with
  | [] => [x]
  | y :: rest =>
      if String.leb (key x) (key y) then x :: y :: rest
      else y :: insert_by key x rest
  end.

(** [sorted(l, key=key)] for string keys.  Each item goes in front of what
    is already sorted of the items after it, so equal keys keep their order,
    as in Python. *)
Definition sorted {A : Type} (key : A -> string) (l : list A) : list A :=
  fold_right (fun x acc => insert_by key x acc) [] l.

End PyStr.

(* ================================================================== *)
(** * Types *)

(** A step of a [Path]: [Union[str, int]]. *)
Inductive step : Type :=
| Key (k : string)
| Idx (i : Z).

Definition Path : Type := list step.

#[warnings="-register-all"]
Inductive JSONType : Type :=
| JNull
| JBool (b : bool)
| JInt (n : Z)
| JFloat (x : float)
| JStr (s : string)
| JList (items : list JSONType)
| JDict (entries : list (step * JSONType)).

(** The exceptions that subscripting and [set_by_path] raise.  The
    specification calls every one of them, when it comes out of a path
    operation, an address error.  [RecursionError] is none of these: it
    is what [json.loads] raises on a text nested too deep, as it raises
    [ValueError] on an integer literal over the digit limit. *)
Inductive exn : Type :=
| KeyError (k : step)
| IndexError
| TypeError
| ValueError (msg : string)
| RecursionError.

Inductive res (A : Type) : Type :=
| Ok (a : A)
| Raise (e : exn).

Arguments Ok {A} a.
Arguments Raise {A} e.

Definition bind {A B : Type} (r : res A) (k : A -> res B) : res B :=
  match r with
  | Ok a => k a
  | Raise e => Raise e
  end.

Notation "x <- r ;; k" := (bind r (fun x => k))
  (at level 61, r at next level, right associativity).

Definition step_eqb (a b : step) : bool :=
  match a, b with
  | Key x, Key y => String.eqb x y
  | Idx i, Idx j => Z.eqb i j
  | _, _ => false
  end.

(* ================================================================== *)
(** * Subscripting *)

(** A Python index into a sequence of [len] items: counted from the end when
    negative, [None] when out of range. *)
Definition norm_index (len : nat) (i : Z) : option nat :=
  if (0 <=? i)%Z then
    if (i <? Z.of_nat len)%Z then Some (Z.to_nat i) else None
  else
    if (- Z.of_nat len <=? i)%Z then Some (Z.to_nat (i + Z.of_nat len)) else None.

Fixpoint dict_get (m : list (step * JSONType)) (k : step) : option JSONType :=
  match m with
  | [] => None
  | (k', v) :: rest => if step_eqb k' k then Some v else dict_get rest k
  end.

(** [m[k] = v]: an existing key keeps its place, a new one goes last. *)
Fixpoint dict_set (m : list (step * JSONType)) (k : step) (v : JSONType)
  : list (step * JSONType) :=
  match m with
  | [] => [(k, v)]
  | (k', v') :: rest =>
      if step_eqb k' k then (k', v) :: rest else (k', v') :: dict_set rest k v
  end.

Fixpoint list_set (l : list JSONType) (n : nat) (v : JSONType) : list JSONType :=
  match l, n with
  | [], _ => []
  | _ :: rest, O => v :: rest
  | x :: rest, S m => x :: list_set rest m v
  end.

(** [cur[p]] *)
Definition getitem (cur : JSONType) (p : step) : res JSONType :=
  match cur with
  | JDict m =>
      match dict_get m p with
      | Some v => Ok v
      | None => Raise (KeyError p)
      end
  | JList l =>
      match p with
      | Idx i =>
          match norm_index (List.length l) i with
          | Some n => match nth_error l n with
                      | Some v => Ok v
                      | None => Raise IndexError
                      end
          | None => Raise IndexError
          end
      | Key _ => Raise TypeError
      end
  | JStr s =>
      match p with
      | Idx i =>
          let cps := PyStr.code_points s in
          match norm_index (List.length cps) i with
          | Some n => match nth_error cps n with
                      | Some c => Ok (JStr c)
                      | None => Raise IndexError
                      end
          | None => Raise IndexError
          end
      | Key _ => Raise TypeError
      end
  | JNull | JBool _ | JInt _ | JFloat _ => Raise TypeError
  end.

(** [cur[p] = v], giving the container after the assignment. *)
Definition setitem (cur : JSONType) (p : step) (v : JSONType) : res JSONType :=
  match cur with
  | JDict m => Ok (JDict (dict_set m p v))
  | JList l =>
      match p with
      | Idx i =>
          match norm_index (List.length l) i with
          | Some n => Ok (JList (list_set l n v))
          | None => Raise IndexError
          end
      | Key _ => Raise TypeError
      end
  | JStr _ | JNull | JBool _ | JInt _ | JFloat _ => Raise TypeError
  end.

(* ================================================================== *)
(** * Utilities *)

Definition is_leaf (value : JSONType) : bool :=
  match value with
  | JDict _ | JList _ => false
  | _ => true
  end.

Definition path_to_str (path : Path) : string :=
  match path with
  | [] => "$"
  | _ => PyStr.join "."
           (map (fun p => match p with
                          | Idx i => ("[" ++ PyStr.str_of_int i ++ "]")%string
                          | Key k => k
                          end) path)
  end.

Fixpoint get_by_path (data : JSONType) (path : Path) : res JSONType :=
  match path with
  | [] => Ok data
  | p :: rest => cur <- getitem data p ;; get_by_path cur rest
  end.

(** The document after the object found at [path] has been mutated into
    [obj]: the object is shared with the document, so every container on the
    way to it shows the change. *)
Fixpoint store (data : JSONType) (path : Path) (obj : JSONType) : JSONType :=
  match path with
  | [] => obj
  | p :: rest =>
      match getitem data p with
      | Ok child =>
          match setitem data p (store child rest obj) with
          | Ok data' => data'
          | Raise _ => data
          end
      | Raise _ => data
      end
  end.

(** [set_by_path(data, path, new_value)]: the outcome and the document
    afterwards. *)
Definition set_by_path (data : JSONType) (path : Path) (new_value : JSONType)
  : res unit * JSONType :=
  match path with
  | [] => (Raise (ValueError "Refusing to overwrite root object"), data)
  | _ :: _ =>
      match get_by_path data (removelast path) with
      | Raise e => (Raise e, data)
      | Ok parent =>
          match setitem parent (last path (Idx 0)) new_value with
          | Raise e => (Raise e, data)
          | Ok parent' => (Ok tt, store data (removelast path) parent')
          end
      end
  end.

(* ================================================================== *)
(** * Bytes *)

Module PyBytes.

Local Open Scope N_scope.

Definition is_cont (n : N) : bool := (128 <=? n) && (n <=? 191).

(** Well-formed UTF-8: shortest forms only, no surrogates, nothing above
    U+10FFFF. *)
Fixpoint utf8_valid (l : list N) : bool :=
  match l with
  | [] => true
  | a :: t1 =>
      if a <? 128 then utf8_valid t1
      else if (194 <=? a) && (a <=? 223) then
        match t1 with
        | b :: t2 => is_cont b && utf8_valid t2
        | _ => false
        end
      else if (224 <=? a) && (a <=? 239) then
        match t1 with
        | b :: c :: t3 =>
            (if a =? 224 then (160 <=? b) && (b <=? 191)
             else if a =? 237 then (128 <=? b) && (b <=? 159)
             else is_cont b)
            && is_cont c && utf8_valid t3
        | _ => false
        end
      else if (240 <=? a) && (a <=? 244) then
        match t1 with
        | b :: c :: d :: t4 =>
            (if a =? 240 then (144 <=? b) && (b <=? 191)
             else if a =? 244 then (128 <=? b) && (b <=? 143)
             else is_cont b)
            && is_cont c && is_cont d && utf8_valid t4
        | _ => false
        end
      else false
  end.

(** [raw.decode("utf-8")]; [None] stands for [UnicodeDecodeError]. *)
Definition decode_utf8 (raw : list byte) : option string :=
  if utf8_valid (map Byte.to_N raw) then Some (string_of_list_byte raw)
  else None.

Definition latin1_char (n : N) : string :=
  if n <? 128 then String (ascii_of_N n) ""
  else String (ascii_of_N (192 + n / 64)) (String (ascii_of_N (128 + n mod 64)) "").

(** [raw.decode("latin-1", errors="ignore")]: every byte is a code point. *)
Definition decode_latin1 (raw : list byte) : string :=
  String.concat "" (map (fun b => latin1_char (Byte.to_N b)) raw).

End PyBytes.

(** [range(0, stop, step)] *)
Definition range_step (stop step : nat) : list nat :=
  map (fun k => k * step) (seq 0 ((stop + step - 1) / step)).

Definition hexdump_width : nat := 16.
Definition hexdump_limit : nat := 8 * 1024.
Definition truncation_marker : string := "… (truncated)".

Definition hexdump_row (width i : nat) (chunk : list byte) : string :=
  let hexs :=
    PyStr.join " " (map (fun c => PyStr.format_hex 2 (Byte.to_N c)) chunk) in
  let text :=
    PyStr.join ""
      (map (fun c => if ((32 <=? Byte.to_N c) && (Byte.to_N c <? 127))%N
                     then String (ascii_of_byte c) ""
                     else "."%string) chunk) in
  (PyStr.format_hex 8 (N.of_nat i) ++ "  " ++ PyStr.ljust (width * 3) hexs
   ++ "  " ++ text)%string.

(** The lines that the loop of [hexdump] appends, one for each chunk of
    [b]. *)
Definition hexdump_rows (width : nat) (b : list byte) : list string :=
  map (fun i => hexdump_row width i (firstn width (skipn i b)))
      (range_step (List.length b) width).

(** The list [lines] that [hexdump] joins. *)
Definition hexdump_lines (width limit : nat) (b : list byte) : list string :=
  let b := firstn limit b in
  let lines := hexdump_rows width b in
  if Nat.eqb (List.length b) limit then lines ++ [truncation_marker] else lines.

Definition hexdump (b : list byte) : string :=
  PyStr.join PyStr.nl (hexdump_lines hexdump_width hexdump_limit b).

(* ================================================================== *)
(** * The Python runtime *)

(** What a call of [json.loads] comes to: the value read, the exception
    [json.JSONDecodeError], which the program catches, or any other
    exception ([RecursionError], the [ValueError] of an over-long integer),
    which it does not catch. *)
Inductive loads_outcome : Type :=
| Parsed (v : JSONType)
| JSONDecodeError
| LoadsRaises (e : exn).

(** The library functions the program calls.  [json_loads] is
    [json.loads]; [json_dumps] is
    [json.dumps(v, indent=2, ensure_ascii=False)]; [b64decode] is
    [base64.b64decode(s, validate=True)] and gives the [repr] of the
    exception when it raises. *)
Class PyLib : Type := {
  json_loads : string -> loads_outcome;
  json_dumps : JSONType -> string;
  b64decode : string -> string + list byte
}.

(* ================================================================== *)
(** * Screens *)

(** The log widget, as the lines written to it. *)
Definition LogWidget : Type := list string.

Definition _log_write_lines (w : LogWidget) (text : string) : LogWidget :=
  w ++ PyStr.splitlines text.

Record Base64Result : Type := {
  decoded_text : option string;
  decoded_bytes_preview : option string;
  replacement_value : option string
}.

Record Base64DecodeScreen : Type := {
  b64_title : string;
  b64_src : string;
  b64_result : option Base64Result;
  b64_log : LogWidget;
  b64_replace_display : bool
}.

(** What the operator does with the decode screen. *)
Inductive b64_event : Type :=
| PressReplace
| PressClose
| PressEscape.

(** The screens the application pushes.  [FailureViewer title prefix e] is
    [ValueViewer(title, f"{prefix}{e!r}")]. *)
Inductive Screen : Type :=
| ValueViewer (title content : string)
| FailureViewer (title prefix : string) (e : exn)
| Base64Decode (scr : Base64DecodeScreen).

(* ================================================================== *)
(** * The tree *)

Inductive node_kind : Type :=
| KDict
| KList
| KLeaf.

Record NodeMeta : Type := {
  path : Path;
  kind : node_kind;
  loaded : bool
}.

#[warnings="-register-all"]
Inductive Node : Type :=
| MkNode (label : string) (data : NodeMeta) (allow_expand expanded : bool)
         (children : list Node).

Definition node_label (n : Node) : string :=
  match n with MkNode l _ _ _ _ => l end.
Definition node_data (n : Node) : NodeMeta :=
  match n with MkNode _ d _ _ _ => d end.
Definition node_allow_expand (n : Node) : bool :=
  match n with MkNode _ _ a _ _ => a end.
Definition node_expanded (n : Node) : bool :=
  match n with MkNode _ _ _ e _ => e end.
Definition node_children (n : Node) : list Node :=
  match n with MkNode _ _ _ _ c => c end.

(** A node of the tree, named by the child numbers that lead to it from the
    root. *)
Definition NodeRef : Type := list nat.

Fixpoint node_at (n : Node) (r : NodeRef) : option Node :=
  match r with
  | [] => Some n
  | i :: rest =>
      match nth_error (node_children n) i with
      | Some c => node_at c rest
      | None => None
      end
  end.

Fixpoint replace_nth {A : Type} (l : list A) (i : nat) (x : A) : list A :=
  match l, i with
  | [], _ => []
  | _ :: rest, O => x :: rest
  | y :: rest, S j => y :: replace_nth rest j x
  end.

(** The tree after the node named by [r] has become [n']. *)
Fixpoint put_node (n : Node) (r : NodeRef) (n' : Node) : Node :=
  match r with
  | [] => n'
  | i :: rest =>
      match nth_error (node_children n) i with
      | Some c =>
          MkNode (node_label n) (node_data n) (node_allow_expand n)
                 (node_expanded n)
                 (replace_nth (node_children n) i (put_node c rest n'))
      | None => n
      end
  end.

Definition is_branch_kind (k : node_kind) : bool :=
  match k with
  | KDict | KList => true
  | KLeaf => false
  end.

Definition kind_of (value : JSONType) : node_kind :=
  match value with
  | JDict _ => KDict
  | JList _ => KList
  | _ => KLeaf
  end.

(** [str(k)] for a step. *)
Definition str_of_step (k : step) : string :=
  match k with
  | Key s => s
  | Idx i => PyStr.str_of_int i
  end.

Definition set_loaded (m : NodeMeta) (b : bool) : NodeMeta :=
  {| path := path m; kind := kind m; loaded := b |}.

Definition set_kind (m : NodeMeta) (k : node_kind) : NodeMeta :=
  {| path := path m; kind := k; loaded := loaded m |}.

(** The child that one turn of either loop of [_populate_children] adds:
    [shown] is the key or the bracketed index. *)
Definition child_node (shown : string) (child_path : Path) (v : JSONType) : Node :=
  if is_leaf v then
    MkNode (shown ++ ": (...)")
           {| path := child_path; kind := KLeaf; loaded := true |}
           false false []
  else
    MkNode (shown ++ ":")
           {| path := child_path;
              kind := match v with JDict _ => KDict | _ => KList end;
              loaded := false |}
           true false [].

Fixpoint mapM {A B : Type} (f : A -> res B) (l : list A) : res (list B) :=
  match l with
  | [] => Ok []
  | x :: rest => y <- f x ;; ys <- mapM f rest ;; Ok (y :: ys)
  end.

(** [enumerate(l)] *)
Definition enumerate {A : Type} (l : list A) : list (nat * A) :=
  combine (seq 0 (List.length l)) l.

(** The children that [_populate_children] attaches to a node at
    [node_path] whose value is [value]. *)
Definition children_of (node_path : Path) (value : JSONType) : res (list Node) :=
  match value with
  | JDict m =>
      mapM (fun k =>
              v <- getitem value k ;;
              Ok (child_node (str_of_step k) (node_path ++ [k]) v))
           (PyStr.sorted str_of_step (map fst m))
  | JList l =>
      Ok (map (fun iv =>
                 let i := Z.of_nat (fst iv) in
                 child_node ("[" ++ PyStr.str_of_int i ++ "]")
                            (node_path ++ [Idx i]) (snd iv))
              (enumerate l))
  | _ => Ok []
  end.

Definition _populate_children (doc : JSONType) (node : Node) : res Node :=
  let meta := node_data node in
  value <- match path meta with
           | [] => Ok doc
           | _ :: _ => get_by_path doc (path meta)
           end ;;
  cs <- children_of (path meta) value ;;
  Ok (MkNode (node_label node) (set_loaded meta true)
             (node_allow_expand node) (node_expanded node) cs).

Definition path_eqb (p q : Path) : bool :=
  (Nat.eqb (List.length p) (List.length q))
  && forallb (fun ab => step_eqb (fst ab) (snd ab)) (combine p q).

(** [_find_node_by_path], from [node] down.  The loop pops the node pushed
    last, so it looks at a node, then at its children from the last to the
    first, each with everything below it. *)
Fixpoint find_from (target : Path) (node : Node) : option NodeRef :=
  match node with
  | MkNode _ meta _ _ cs =>
      if path_eqb (path meta) target then Some []
      else
        (fix last_first (cs : list Node) (i : nat) : option NodeRef :=
           match cs with
           | [] => None
           | c :: rest =>
               match last_first rest (S i) with
               | Some r => Some r
               | None => option_map (cons i) (find_from target c)
               end
           end) cs O
  end.

Definition expand (n : Node) : Node :=
  MkNode (node_label n) (node_data n) (node_allow_expand n) true
         (node_children n).

Definition with_data (n : Node) (m : NodeMeta) : Node :=
  MkNode (node_label n) m (node_allow_expand n) (node_expanded n)
         (node_children n).

(* ================================================================== *)
(** * The application *)

Record App : Type := {
  app_data : JSONType;
  root_label : string;
  tree : Node;
  screens : list Screen
}.

Definition with_tree (a : App) (t : Node) : App :=
  {| app_data := app_data a; root_label := root_label a; tree := t;
     screens := screens a |}.

Definition with_doc (a : App) (d : JSONType) : App :=
  {| app_data := d; root_label := root_label a; tree := tree a;
     screens := screens a |}.

Definition push_screen (a : App) (s : Screen) : App :=
  {| app_data := app_data a; root_label := root_label a; tree := tree a;
     screens := screens a ++ [s] |}.

(** [JSONTreeApp(data, root_label)] once mounted. *)
Definition on_mount (doc : JSONType) (label : string) : App :=
  let k := kind_of doc in
  {| app_data := doc;
     root_label := label;
     tree := MkNode label {| path := []; kind := k; loaded := false |}
                    (is_branch_kind k) false [];
     screens := [] |}.

(** Runs [body] on the node named by [r] and puts the result back. *)
Definition at_node (a : App) (r : NodeRef) (body : Node -> res Node) : res App :=
  match node_at (tree a) r with
  | Some n => n' <- body n ;; Ok (with_tree a (put_node (tree a) r n'))
  | None => Ok a
  end.

Definition on_tree_node_expanded (a : App) (r : NodeRef) : res App :=
  at_node a r (fun node =>
    let meta := node_data node in
    if is_branch_kind (kind meta) && negb (loaded meta)
    then _populate_children (app_data a) node
    else Ok node).

(** [node.toggle()] on a branch, with the handler its event reaches. *)
Definition toggle (a : App) (r : NodeRef) : res App :=
  match node_at (tree a) r with
  | Some n =>
      if node_expanded n then
        Ok (with_tree a
              (put_node (tree a) r
                 (MkNode (node_label n) (node_data n) (node_allow_expand n)
                         false (node_children n))))
      else on_tree_node_expanded (with_tree a (put_node (tree a) r (expand n))) r
  | None => Ok a
  end.

Definition _refresh_tree_after_value_change (a : App) (p : Path) : res App :=
  new_value <- match p with
               | [] => Ok (app_data a)
               | _ :: _ => get_by_path (app_data a) p
               end ;;
  let is_branch := negb (is_leaf new_value) in
  match p with
  | [] =>
      let node := tree a in
      let meta := set_kind (node_data node) (kind_of new_value) in
      let node := MkNode (node_label node) meta (is_branch_kind (kind meta))
                         (node_expanded node) [] in
      if is_branch_kind (kind meta) then
        node <- _populate_children (app_data a)
                  (with_data node (set_loaded meta false)) ;;
        Ok (with_tree a (if is_branch then expand node else node))
      else Ok (with_tree a (with_data node (set_loaded meta true)))
  | _ :: _ =>
      let parent_path := removelast p in
      match find_from parent_path (tree a) with
      | None => Ok a
      | Some parent_ref =>
          match node_at (tree a) parent_ref with
          | None => Ok a
          | Some parent_node =>
              let parent_meta := node_data parent_node in
              if negb (is_branch_kind (kind parent_meta)) then Ok a
              else
                parent_node <- _populate_children (app_data a)
                                 (with_data parent_node
                                    (set_loaded parent_meta false)) ;;
                if is_branch then
                  let t := put_node (tree a) parent_ref (expand parent_node) in
                  match find_from p t with
                  | None => Ok (with_tree a t)
                  | Some new_ref =>
                      at_node (with_tree a t) new_ref (fun new_node =>
                        new_node <- _populate_children (app_data a)
                                      (with_data new_node
                                         (set_loaded (node_data new_node) false)) ;;
                        Ok (expand new_node))
                  end
                else Ok (with_tree a (put_node (tree a) parent_ref parent_node))
          end
      end
  end.

Section Operations.

Context {lib : PyLib}.

(** [Base64DecodeScreen(title, src_value)] once mounted. *)
Definition b64_on_mount (title src : string) : Base64DecodeScreen :=
  match b64decode src with
  | inr raw =>
      match PyBytes.decode_utf8 raw with
      | Some text =>
          {| b64_title := title; b64_src := src;
             b64_result := Some {| decoded_text := Some text;
                                   decoded_bytes_preview := None;
                                   replacement_value := Some text |};
             b64_log := _log_write_lines []
                          ("✅ Base64 decoded as UTF-8 text:" ++ PyStr.nl ++ text);
             b64_replace_display := true |}
      | None =>
          let preview := hexdump raw in
          {| b64_title := title; b64_src := src;
             b64_result := Some {| decoded_text := None;
                                   decoded_bytes_preview := Some preview;
                                   replacement_value :=
                                     Some (PyBytes.decode_latin1 raw) |};
             b64_log := _log_write_lines []
                          ("✅ Base64 decoded as bytes (hex):" ++ PyStr.nl ++ preview);
             b64_replace_display := true |}
      end
  | inl e =>
      {| b64_title := title; b64_src := src;
         b64_result := None;
         b64_log := _log_write_lines [] ("❌ Decode failed: " ++ e);
         b64_replace_display := false |}
  end.

(** The value the decode screen is dismissed with: [on_button_pressed] for
    the two buttons, [action_close] for the escape key. *)
Definition b64_dismiss (scr : Base64DecodeScreen) (ev : b64_event)
  : option Base64Result :=
  match ev with
  | PressReplace => b64_result scr
  | PressClose => None
  | PressEscape => None
  end.

(** The value [handle_base64] writes for a result that carries a
    replacement; an exception of [json.loads] other than
    [JSONDecodeError] passes the [except] clause and is raised. *)
Definition b64_replacement (result : Base64Result) (repl : string)
  : res JSONType :=
  match decoded_text result with
  | Some text =>
      let stripped := PyStr.lstrip text in
      if PyStr.startswith stripped "{" || PyStr.startswith stripped "[" then
        match json_loads text with
        | JSONDecodeError => Ok (JStr repl)
        | Parsed parsed => Ok parsed
        | LoadsRaises e => Raise e
        end
      else Ok (JStr repl)
  | None => Ok (JStr repl)
  end.

(** The end of [handle_base64]: the guarded write, then the refresh. *)
Definition replace_value (a : App) (p : Path) (replacement : JSONType) : res App :=
  match set_by_path (app_data a) p replacement with
  | (Raise e, d) =>
      Ok (push_screen (with_doc a d)
            (FailureViewer "Error" "Failed to replace value: " e))
  | (Ok _, d) => _refresh_tree_after_value_change (with_doc a d) p
  end.

Definition handle_base64 (a : App) (p : Path) (result : option Base64Result)
  : res App :=
  match result with
  | Some r =>
      match replacement_value r with
      | Some repl =>
          replacement <- b64_replacement r repl ;;
          replace_value a p replacement
      | None => Ok a
      end
  | None => Ok a
  end.

(** [_b64_leaf] up to the moment the decode screen is on display; the
    screen is returned when one was opened. *)
Definition _b64_leaf (a : App) (node : Node)
  : res (App * option Base64DecodeScreen) :=
  let meta := node_data node in
  val <- get_by_path (app_data a) (path meta) ;;
  match val with
  | JStr s =>
      let scr := b64_on_mount ("Base64 decode of " ++ path_to_str (path meta)) s in
      Ok (push_screen a (Base64Decode scr), Some scr)
  | _ =>
      Ok (push_screen a (ValueViewer "Base64 decode" "Leaf value is not a string."),
          None)
  end.

(** The whole decode operation on a leaf: the screen opens, the operator
    answers with [ev], the callback runs. *)
Definition b64_operation (a : App) (node : Node) (ev : b64_event) : res App :=
  opened <- _b64_leaf a node ;;
  match snd opened with
  | Some scr => handle_base64 (fst opened) (path (node_data node)) (b64_dismiss scr ev)
  | None => Ok (fst opened)
  end.

(** The value [_edit_leaf] writes when the editor hands back [edited]; an
    exception of [json.loads] other than [JSONDecodeError] passes the
    [except] clause and is raised. *)
Definition edit_replacement (old : JSONType) (edited : string) : res JSONType :=
  match old with
  | JStr _ => Ok (JStr edited)
  | _ =>
      match json_loads edited with
      | Parsed v => Ok v
      | JSONDecodeError => Ok (JStr edited)
      | LoadsRaises e => Raise e
      end
  end.

(** The end of [_edit_leaf]: the guarded write of [new_value]. *)
Definition write_edited (a : App) (p : Path) (new_value : JSONType) : App :=
  match set_by_path (app_data a) p new_value with
  | (Raise e, d) =>
      push_screen (with_doc a d) (FailureViewer "Error" "Failed to set value: " e)
  | (Ok _, d) => with_doc a d
  end.

(** The text [_edit_leaf] opens the editor on. *)
Definition initial_text (old : JSONType) : string :=
  match old with
  | JStr s => s
  | _ => json_dumps old
  end.

(** [_edit_leaf]; [open_in_editor] is the operator's editing session, which
    gives the edited text or [None]. *)
Definition _edit_leaf (open_in_editor : string -> option string)
  (a : App) (node : Node) : res App :=
  let meta := node_data node in
  old <- get_by_path (app_data a) (path meta) ;;
  match open_in_editor (initial_text old) with
  | None => Ok a
  | Some edited =>
      new_value <- edit_replacement old edited ;;
      Ok (write_edited a (path meta) new_value)
  end.

End Operations.

(* ================================================================== *)
(** * The display operation, the menu and the shortcuts *)

Section Menu.

Context {lib : PyLib}.

(** [rich.pretty.pretty_repr], whatever text it makes of a value. *)
Variable pretty_repr : JSONType -> string.

(** The editing session and the operator's answer to the decode screen,
    should the choice lead to one. *)
Variable open_in_editor : string -> option string.
Variable decode_answer : b64_event.

Definition _value_as_text (a : App) (node : Node) : res string :=
  value <- get_by_path (app_data a) (path (node_data node)) ;;
  Ok (pretty_repr value).

Definition _display_leaf (a : App) (node : Node) : res App :=
  let meta := node_data node in
  val_text <- _value_as_text a node ;;
  Ok (push_screen a (ValueViewer ("Display " ++ path_to_str (path meta)) val_text)).

(** [OpsMenuScreen.on_option_list_option_selected]: the value the menu is
    dismissed with when the option of identifier [id] is selected. *)
Definition ops_option_selected (id : option string) : option string :=
  let opt := match id with
             | Some s => s
             | None => EmptyString
             end in
  if String.eqb opt "cancel" then None else Some opt.

(** [handle_choice], the callback of the menu opened for [node]. *)
Definition handle_choice (a : App) (node : Node) (choice : option string)
  : res App :=
  match choice with
  | Some c =>
      if String.eqb c "display" then _display_leaf a node
      else if String.eqb c "b64" then b64_operation a node decode_answer
      else if String.eqb c "edit" then _edit_leaf open_in_editor a node
      else Ok a
  | None => Ok a
  end.

(** [tree.cursor_node or tree.root] *)
Definition cursor_or_root (a : App) (cursor_node : option Node) : Node :=
  match cursor_node with
  | Some n => n
  | None => tree a
  end.

Definition is_leaf_kind (k : node_kind) : bool :=
  match k with
  | KLeaf => true
  | KDict | KList => false
  end.

Definition action_edit_selected (a : App) (cursor_node : option Node) : res App :=
  let node := cursor_or_root a cursor_node in
  if is_leaf_kind (kind (node_data node)) then _edit_leaf open_in_editor a node
  else Ok a.

Definition action_display_selected (a : App) (cursor_node : option Node)
  : res App :=
  let node := cursor_or_root a cursor_node in
  if is_leaf_kind (kind (node_data node)) then _display_leaf a node
  else Ok a.

End Menu.

(* ================================================================== *)
(** * An executable runtime

    [py] models the library on documents whose numbers are integers: its
    reader takes no float literal ([1.5], [1e3], [NaN]) and no surrogate
    escape, it knows no limit of depth or of digits (so it never comes to
    [LoadsRaises]), and its printer has no decimal expansion for a float.
    On every other input it follows the library. *)

Module Py.

Local Open Scope string_scope.

Definition dqc : ascii := ascii_of_nat 34.
Definition bslash : ascii := ascii_of_nat 92.

(** ** Base64 *)

Definition b64_value (c : ascii) : option N :=
  let n := N_of_ascii c in
  if ((65 <=? n) && (n <=? 90))%N then Some (n - 65)%N
  else if ((97 <=? n) && (n <=? 122))%N then Some (n - 97 + 26)%N
  else if ((48 <=? n) && (n <=? 57))%N then Some (n - 48 + 52)%N
  else if (n =? 43)%N then Some 62%N
  else if (n =? 47)%N then Some 63%N
  else None.

Definition to_byte (n : N) : byte := byte_of_ascii (ascii_of_N (n mod 256)).

Definition is_pad (c : ascii) : bool := Ascii.eqb c "=".

Fixpoint b64_quads (s : string) : option (list byte) :=
  match s with
  | EmptyString => Some []
  | String a (String b (String c (String d rest))) =>
      match b64_value a, b64_value b with
      | Some x, Some y =>
          let b0 := to_byte (x * 4 + y / 16) in
          match rest with
          | EmptyString =>
              if is_pad d then
                if is_pad c then Some [b0]
                else match b64_value c with
                     | Some z => Some [b0; to_byte (y * 16 + z / 4)]
                     | None => None
                     end
              else match b64_value c, b64_value d with
                   | Some z, Some w =>
                       Some [b0; to_byte (y * 16 + z / 4); to_byte (z * 64 + w)]
                   | _, _ => None
                   end
          | _ =>
              match b64_value c, b64_value d, b64_quads rest with
              | Some z, Some w, Some tl =>
                  Some (b0 :: to_byte (y * 16 + z / 4) :: to_byte (z * 64 + w) :: tl)
              | _, _, _ => None
              end
          end
      | _, _ => None
      end
  | _ => None
  end.

Fixpoint all_chars (f : ascii -> bool) (s : string) : bool :=
  match s with
  | EmptyString => true
  | String c rest => f c && all_chars f rest
  end.

Definition b64decode (s : string) : string + list byte :=
  if negb (all_chars (fun c => (N_of_ascii c <? 128)%N) s) then
    inl "ValueError('string argument should contain only ASCII characters')"
  else if negb (all_chars (fun c => is_pad c
                                    || match b64_value c with
                                       | Some _ => true
                                       | None => false
                                       end) s) then
    inl "Error('Only base64 data is allowed')"
  else
    match b64_quads s with
    | Some raw => inr raw
    | None => inl "Error('Incorrect padding')"
    end.

(** ** Reading JSON *)

Definition is_ws (c : ascii) : bool :=
  let n := N_of_ascii c in ((n =? 32) || (n =? 9) || (n =? 10) || (n =? 13))%N.

Fixpoint skip_ws (s : string) : string :=
  match s with
  | String c rest => if is_ws c then skip_ws rest else s
  | EmptyString => s
  end.

Fixpoint drop (n : nat) (s : string) : string :=
  match n, s with
  | S m, String _ rest => drop m rest
  | _, _ => s
  end.

Definition digit_value (c : ascii) : option Z :=
  let n := N_of_ascii c in
  if ((48 <=? n) && (n <=? 57))%N then Some (Z.of_N (n - 48)) else None.

Definition hex_value (c : ascii) : option N :=
  let n := N_of_ascii c in
  if ((48 <=? n) && (n <=? 57))%N then Some (n - 48)%N
  else if ((97 <=? n) && (n <=? 102))%N then Some (n - 87)%N
  else if ((65 <=? n) && (n <=? 70))%N then Some (n - 55)%N
  else None.

Fixpoint take_digits (acc : Z) (s : string) : Z * string :=
  match s with
  | String c rest =>
      match digit_value c with
      | Some d => take_digits (acc * 10 + d) rest
      | None => (acc, s)
      end
  | EmptyString => (acc, s)
  end.

Definition starts_fraction (s : string) : bool :=
  match s with
  | String c _ => Ascii.eqb c "." || Ascii.eqb c "e" || Ascii.eqb c "E"
  | EmptyString => false
  end.

(** An integer literal, the sign already taken off. *)
Definition read_natural (s : string) : option (Z * string) :=
  match s with
  | String c rest =>
      match digit_value c with
      | Some 0%Z => if starts_fraction rest then None else Some (0%Z, rest)
      | Some d =>
          let '(n, rest') := take_digits d rest in
          if starts_fraction rest' then None else Some (n, rest')
      | None => None
      end
  | EmptyString => None
  end.

Definition utf8_encode (cp : N) : string :=
  (if cp <? 128 then String (ascii_of_N cp) ""
   else if cp <? 2048 then
     String (ascii_of_N (192 + cp / 64)) (String (ascii_of_N (128 + cp mod 64)) "")
   else
     String (ascii_of_N (224 + cp / 4096))
       (String (ascii_of_N (128 + (cp / 64) mod 64))
          (String (ascii_of_N (128 + cp mod 64)) "")))%N.

Definition simple_escape (c : ascii) : option string :=
  if Ascii.eqb c dqc then Some (String dqc "")
  else if Ascii.eqb c bslash then Some (String bslash "")
  else if Ascii.eqb c "/" then Some "/"
  else if Ascii.eqb c "b" then Some (String (ascii_of_nat 8) "")
  else if Ascii.eqb c "f" then Some (String (ascii_of_nat 12) "")
  else if Ascii.eqb c "n" then Some (String (ascii_of_nat 10) "")
  else if Ascii.eqb c "r" then Some (String (ascii_of_nat 13) "")
  else if Ascii.eqb c "t" then Some (String (ascii_of_nat 9) "")
  else None.

(** The rest of a string literal, the opening quote already read. *)
Fixpoint read_string (acc : string) (s : string) : option (string * string) :=
  match s with
  | EmptyString => None
  | String c rest =>
      if Ascii.eqb c dqc then Some (acc, rest)
      else if Ascii.eqb c bslash then
        match rest with
        | String e rest1 =>
            match simple_escape e with
            | Some ch => read_string (acc ++ ch) rest1
            | None =>
                if Ascii.eqb e "u" then
                  match rest1 with
                  | String h1 (String h2 (String h3 (String h4 rest2))) =>
                      match hex_value h1, hex_value h2, hex_value h3, hex_value h4 with
                      | Some a, Some b, Some c', Some d =>
                          let cp := (a * 4096 + b * 256 + c' * 16 + d)%N in
                          if ((55296 <=? cp) && (cp <=? 57343))%N then None
                          else read_string (acc ++ utf8_encode cp) rest2
                      | _, _, _, _ => None
                      end
                  | _ => None
                  end
                else None
            end
        | EmptyString => None
        end
      else if (N_of_ascii c <? 32)%N then None
      else read_string (acc ++ String c "") rest
  end.

Fixpoint read_value (fuel : nat) (s : string) {struct fuel}
  : option (JSONType * string) :=
  match fuel with
  | O => None
  | S f =>
      match skip_ws s with
      | EmptyString => None
      | String c rest =>
          if Ascii.eqb c "{" then
            match skip_ws rest with
            | String c' rest' =>
                if Ascii.eqb c' "}" then Some (JDict [], rest')
                else read_members f [] rest
            | EmptyString => None
            end
          else if Ascii.eqb c "[" then
            match skip_ws rest with
            | String c' rest' =>
                if Ascii.eqb c' "]" then Some (JList [], rest')
                else read_items f [] rest
            | EmptyString => None
            end
          else if Ascii.eqb c dqc then
            match read_string "" rest with
            | Some (str, rest') => Some (JStr str, rest')
            | None => None
            end
          else if Ascii.eqb c "-" then
            match read_natural rest with
            | Some (n, rest') => Some (JInt (- n), rest')
            | None => None
            end
          else if String.prefix "true" (String c rest) then
            Some (JBool true, drop 4 (String c rest))
          else if String.prefix "false" (String c rest) then
            Some (JBool false, drop 5 (String c rest))
          else if String.prefix "null" (String c rest) then
            Some (JNull, drop 4 (String c rest))
          else
            match read_natural (String c rest) with
            | Some (n, rest') => Some (JInt n, rest')
            | None => None
            end
      end
  end

with read_items (fuel : nat) (acc : list JSONType) (s : string) {struct fuel}
  : option (JSONType * string) :=
  match fuel with
  | O => None
  | S f =>
      match read_value f s with
      | Some (v, rest) =>
          match skip_ws rest with
          | String c rest' =>
              if Ascii.eqb c "," then read_items f (acc ++ [v]) rest'
              else if Ascii.eqb c "]" then Some (JList (acc ++ [v]), rest')
              else None
          | EmptyString => None
          end
      | None => None
      end
  end

with read_members (fuel : nat) (acc : list (step * JSONType)) (s : string)
  {struct fuel} : option (JSONType * string) :=
  match fuel with
  | O => None
  | S f =>
      match skip_ws s with
      | String q rest =>
          if Ascii.eqb q dqc then
            match read_string "" rest with
            | Some (k, rest1) =>
                match skip_ws rest1 with
                | String colon rest2 =>
                    if Ascii.eqb colon ":" then
                      match read_value f rest2 with
                      | Some (v, rest3) =>
                          match skip_ws rest3 with
                          | String c rest4 =>
                              if Ascii.eqb c "," then
                                read_members f (dict_set acc (Key k) v) rest4
                              else if Ascii.eqb c "}" then
                                Some (JDict (dict_set acc (Key k) v), rest4)
                              else None
                          | EmptyString => None
                          end
                      | None => None
                      end
                    else None
                | EmptyString => None
                end
            | None => None
            end
          else None
      | EmptyString => None
      end
  end.

Definition json_loads (s : string) : option JSONType :=
  match read_value (2 * String.length s + 2) s with
  | Some (v, rest) =>
      match skip_ws rest with
      | EmptyString => Some v
      | String _ _ => None
      end
  | None => None
  end.

(** ** Writing JSON *)

Definition escape_char (c : ascii) : string :=
  let n := N_of_ascii c in
  if Ascii.eqb c dqc then String bslash (String dqc "")
  else if Ascii.eqb c bslash then String bslash (String bslash "")
  else if (n =? 10)%N then String bslash "n"
  else if (n =? 13)%N then String bslash "r"
  else if (n =? 9)%N then String bslash "t"
  else if (n =? 8)%N then String bslash "b"
  else if (n =? 12)%N then String bslash "f"
  else if (n <? 32)%N then String bslash "u" ++ PyStr.hex_digits 4 n
  else String c "".

Fixpoint escape (s : string) : string :=
  match s with
  | EmptyString => ""
  | String c rest => escape_char c ++ escape rest
  end.

Definition quoted (s : string) : string :=
  String dqc (escape s) ++ String dqc "".

Fixpoint write_value (level : nat) (v : JSONType) : string :=
  let pad := PyStr.spaces (2 * S level) in
  match v with
  | JNull => "null"
  | JBool true => "true"
  | JBool false => "false"
  | JInt n => PyStr.str_of_int n
  | JFloat _ => "<float>"
  | JStr s => quoted s
  | JList [] => "[]"
  | JList items =>
      "[" ++ PyStr.nl
      ++ (fix each (l : list JSONType) : string :=
            match l with
            | [] => ""
            | x :: rest =>
                pad ++ write_value (S level) x
                ++ match rest with
                   | [] => ""
                   | _ :: _ => "," ++ PyStr.nl ++ each rest
                   end
            end) items
      ++ PyStr.nl ++ PyStr.spaces (2 * level) ++ "]"
  | JDict [] => "{}"
  | JDict entries =>
      "{" ++ PyStr.nl
      ++ (fix each (l : list (step * JSONType)) : string :=
            match l with
            | [] => ""
            | (k, x) :: rest =>
                pad ++ quoted (str_of_step k) ++ ": " ++ write_value (S level) x
                ++ match rest with
                   | [] => ""
                   | _ :: _ => "," ++ PyStr.nl ++ each rest
                   end
            end) entries
      ++ PyStr.nl ++ PyStr.spaces (2 * level) ++ "}"
  end.

Definition json_dumps (v : JSONType) : string := write_value 0 v.

End Py.

#[export] Instance py : PyLib := {|
  json_loads := fun s => match Py.json_loads s with
                         | Some v => Parsed v
                         | None => JSONDecodeError
                         end;
  json_dumps := Py.json_dumps;
  b64decode := Py.b64decode
|}.

(* ================================================================== *)
(** * Notions the properties are stated with *)

Definition is_prefix (p q : Path) : Prop := exists r, q = p ++ r.

(** A step as the specification's PathAddress has it: a key or an index
    counted from the front. *)
Definition front_step (s : step) : Prop :=
  match s with
  | Key _ => True
  | Idx i => (0 <= i)%Z
  end.

(** The frame property of a write with the side condition "[q] is not [p]
    and does not have [p] as a prefix". *)
Definition frame_below_only (d : JSONType) (p : Path) (v : JSONType) (q : Path)
  : Prop :=
  p <> [] ->
  (exists old, get_by_path d p = Ok old) ->
  forall d', set_by_path d p v = (Ok tt, d') ->
  q <> p -> ~ is_prefix p q ->
  get_by_path d' q = get_by_path d q.

(** The order [sorted(..., key=str)] puts the keys of a dict in. *)
Definition key_le (a b : step) : Prop :=
  String.leb (str_of_step a) (str_of_step b) = true.

(** The kind the tree shows for the node of address [p], when there is
    one. *)
Definition kind_at (t : Node) (p : Path) : option node_kind :=
  match find_from p t with
  | Some r => option_map (fun n => kind (node_data n)) (node_at t r)
  | None => None
  end.

(** The inner loop of [find_from]: the children [cs], numbered from [i],
    from the last to the first. *)
Fixpoint find_in_children (target : Path) (cs : list Node) (i : nat)
  : option NodeRef :=
  match cs with
  | [] => None
  | c :: rest =>
      match find_in_children target rest (S i) with
      | Some r => Some r
      | None => option_map (cons i) (find_from target c)
      end
  end.

(** What [_populate_children] makes of a child whose value is [v]. *)
Definition fresh_child_of (v : JSONType) (c : Node) : Prop :=
  kind (node_data c) = kind_of v
  /\ node_allow_expand c = is_branch_kind (kind_of v)
  /\ loaded (node_data c) = is_leaf v
  /\ node_expanded c = false
  /\ node_children c = [].

(** A tree in which every child sits one step below its parent. *)
#[warnings="-register-all"]
Inductive well_formed : Node -> Prop :=
| well_formed_node (l : string) (m : NodeMeta) (a e : bool) (cs : list Node) :
    Forall (fun c => exists k, path (node_data c) = path m ++ [k]) cs ->
    Forall well_formed cs ->
    well_formed (MkNode l m a e cs).

(** The node [c] shows the kind of what the document holds at its
    address. *)
Definition shows_current (doc : JSONType) (c : Node) : Prop :=
  exists v, get_by_path doc (path (node_data c)) = Ok v
            /\ kind (node_data c) = kind_of v.

(** The text [s] does not begin in the middle of a code point. *)
Definition starts_clean (s : string) : Prop :=
  match PyStr.code_points s with
  | [] => True
  | hd :: _ => PyStr.starts_continuation hd = false
  end.

(** How [path_to_str] writes one step. *)
Definition step_text (p : step) : string :=
  match p with
  | Idx i => "[" ++ PyStr.str_of_int i ++ "]"
  | Key k => k
  end.

(** The chunks [b[i:i+width]] that the loop of [hexdump] goes through. *)
Definition hexdump_chunks (width : nat) (b : list byte) : list (list byte) :=
  map (fun i => firstn width (skipn i b)) (range_step (List.length b) width).

(* ================================================================== *)
(** * Sample documents and sessions *)

Module Sample.

Local Open Scope string_scope.

(** The text [{"a":1}]. *)
Definition object_text : string :=
  "{" ++ PyStr.dq ++ "a" ++ PyStr.dq ++ ":1}".

Definition object_value : JSONType := JDict [(Key "a", JInt 1)].

(** [{"x": 42}] *)
Definition number_doc : JSONType := JDict [(Key "x", JInt 42)].

(** [{"blob": "eyJhIjoxfQ=="}] *)
Definition blob_doc : JSONType := JDict [(Key "blob", JStr "eyJhIjoxfQ==")].

(** [{"s": "!!!"}] *)
Definition bad_doc : JSONType := JDict [(Key "s", JStr "!!!")].

(** [{"a": {"b": 1}}] *)
Definition nested_doc : JSONType := JDict [(Key "a", JDict [(Key "b", JInt 1)])].

(** [{"b": [1, 2], "a": "t", "c": {}}] *)
Definition mixed_doc : JSONType :=
  JDict [(Key "b", JList [JInt 1; JInt 2]); (Key "a", JStr "t"); (Key "c", JDict [])].

(** The application on [doc] after the operator has opened the root. *)
Definition opened (doc : JSONType) : App :=
  match toggle (on_mount doc "JSON") [] with
  | Ok a => a
  | Raise _ => on_mount doc "JSON"
  end.

(** The first child of the root. *)
Definition first_child (a : App) : Node :=
  match node_at (tree a) [0] with
  | Some n => n
  | None => tree a
  end.

(** An editing session in which the operator replaces the text by
    [object_text]. *)
Definition types_object (initial : string) : option string := Some object_text.

(** An editing session in which the operator replaces the text by
    [hello world]. *)
Definition types_hello (initial : string) : option string := Some "hello world".

(** The four documents opened, each with the node of its first key. *)
Definition number_app : App := opened number_doc.
Definition number_node : Node := first_child number_app.
Definition blob_app : App := opened blob_doc.
Definition blob_node : Node := first_child blob_app.
Definition bad_app : App := opened bad_doc.
Definition bad_node : Node := first_child bad_app.
Definition mixed_app : App := opened mixed_doc.
Definition mixed_node : Node := first_child mixed_app.

(** [{"bin": "/w=="}], whose string decodes to the one byte 255. *)
Definition binary_doc : JSONType := JDict [(Key "bin", JStr "/w==")].
Definition binary_app : App := opened binary_doc.
Definition binary_node : Node := first_child binary_app.

(** The document that is the one string [eyJhIjoxfQ==]. *)
Definition string_app : App := on_mount (JStr "eyJhIjoxfQ==") "JSON".

(** A leaf node left over for an address that is not in [number_doc]. *)
Definition stray_node : Node :=
  MkNode "zz: (...)" {| path := [Key "zz"]; kind := KLeaf; loaded := true |}
         false false [].

End Sample.

(* ================================================================== *)
(** * Subscripting and assignment *)

Lemma step_eqb_eq (a b : step) : step_eqb a b = true <-> a = b.
Proof.
  destruct a as [x|i], b as [y|j]; simpl; split; intros H;
    try discriminate; try (inversion H; subst).
  - apply String.eqb_eq in H. now subst.
  - apply String.eqb_refl.
  - apply Z.eqb_eq in H. now subst.
  - apply Z.eqb_refl.
Qed.

Lemma step_eqb_refl (a : step) : step_eqb a a = true.
Proof. now apply step_eqb_eq. Qed.

Lemma step_eqb_neq (a b : step) : a <> b -> step_eqb a b = false.
Proof.
  intros H. destruct (step_eqb a b) eqn:E; [|reflexivity].
  apply step_eqb_eq in E. contradiction.
Qed.

Lemma dict_set_same_value m k v :
  dict_get m k = Some v -> dict_set m k v = m.
Proof.
  induction m as [|[k' v'] m IH]; simpl; [discriminate|].
  destruct (step_eqb k' k); intros H.
  - now inversion H.
  - now rewrite IH.
Qed.

Lemma dict_get_set_other m k v s :
  s <> k -> dict_get (dict_set m k v) s = dict_get m s.
Proof.
  intros Hne. induction m as [|[k' v'] m IH]; simpl.
  - rewrite step_eqb_neq; auto.
  - destruct (step_eqb k' k) eqn:E; simpl.
    + apply step_eqb_eq in E. subst k'.
      rewrite step_eqb_neq; auto.
    + now rewrite IH.
Qed.

Lemma dict_get_set_same m k v : dict_get (dict_set m k v) k = Some v.
Proof.
  induction m as [|[k' v'] m IH]; simpl.
  - now rewrite step_eqb_refl.
  - destruct (step_eqb k' k) eqn:E; simpl; now rewrite E.
Qed.

Lemma list_set_same_value l n v :
  nth_error l n = Some v -> list_set l n v = l.
Proof.
  revert n. induction l as [|x l IH]; intros [|n]; simpl; try discriminate.
  - intros H. now inversion H.
  - intros H. now rewrite IH.
Qed.

Lemma list_set_length l n v : List.length (list_set l n v) = List.length l.
Proof.
  revert n. induction l as [|x l IH]; intros [|n]; simpl; auto.
Qed.

Lemma nth_error_list_set_other l n v m :
  m <> n -> nth_error (list_set l n v) m = nth_error l m.
Proof.
  revert n m. induction l as [|x l IH]; intros [|n] [|m] H; simpl; auto;
    try contradiction.
Qed.

Lemma nth_error_list_set_same l n v :
  n < List.length l -> nth_error (list_set l n v) n = Some v.
Proof.
  revert n. induction l as [|x l IH]; intros [|n] H; simpl in *; try lia; auto.
  apply IH. lia.
Qed.

Lemma norm_index_lt len i n : norm_index len i = Some n -> n < len.
Proof.
  unfold norm_index.
  destruct (0 <=? i)%Z eqn:E0.
  - destruct (i <? Z.of_nat len)%Z eqn:E1; [|discriminate].
    intros H. inversion H. lia.
  - destruct (- Z.of_nat len <=? i)%Z eqn:E1; [|discriminate].
    intros H. inversion H. lia.
Qed.

Lemma norm_index_out_of_range len i :
  (i < - Z.of_nat len \/ Z.of_nat len <= i)%Z -> norm_index len i = None.
Proof.
  unfold norm_index. intros H.
  destruct (0 <=? i)%Z eqn:E0.
  - destruct (i <? Z.of_nat len)%Z eqn:E1; [lia|reflexivity].
  - destruct (- Z.of_nat len <=? i)%Z eqn:E1; [lia|reflexivity].
Qed.

Lemma norm_index_front len i j n m :
  (0 <= i)%Z -> (0 <= j)%Z -> i <> j ->
  norm_index len i = Some n -> norm_index len j = Some m -> n <> m.
Proof.
  unfold norm_index. intros Hi Hj Hne.
  destruct (0 <=? i)%Z eqn:Ei; [|lia].
  destruct (0 <=? j)%Z eqn:Ej; [|lia].
  destruct (i <? Z.of_nat len)%Z; [|discriminate].
  destruct (j <? Z.of_nat len)%Z; [|discriminate].
  intros H1 H2. inversion H1. inversion H2. lia.
Qed.

(** Assigning to a slot the value read from it gives the same container, or
    raises. *)
Lemma setitem_read_back cur k v cur' :
  getitem cur k = Ok v -> setitem cur k v = Ok cur' -> cur' = cur.
Proof.
  destruct cur; simpl; try discriminate.
  - destruct k as [s|i]; [discriminate|].
    destruct (norm_index (List.length items) i) as [n|] eqn:En; [|discriminate].
    destruct (nth_error items n) eqn:Eg; [|discriminate].
    intros H1 H2. inversion H1; subst. inversion H2.
    now rewrite list_set_same_value.
  - destruct (dict_get entries k) eqn:Eg; [|discriminate].
    intros H1 H2. inversion H1; subst. inversion H2.
    now rewrite dict_set_same_value.
Qed.

(** After an assignment the assigned slot reads the new value. *)
Lemma getitem_setitem_same cur k v cur' :
  setitem cur k v = Ok cur' -> getitem cur' k = Ok v.
Proof.
  destruct cur; simpl; try discriminate.
  - destruct k as [s|i]; [discriminate|].
    destruct (norm_index (List.length items) i) as [n|] eqn:En; [|discriminate].
    intros H. inversion H. simpl.
    rewrite list_set_length, En.
    rewrite nth_error_list_set_same; [reflexivity|].
    eapply norm_index_lt; eauto.
  - intros H. inversion H. simpl. now rewrite dict_get_set_same.
Qed.

(** An assignment leaves every other slot as it was. *)
Lemma getitem_setitem_other cur k v cur' s :
  setitem cur k v = Ok cur' ->
  front_step k -> front_step s -> s <> k ->
  getitem cur' s = getitem cur s.
Proof.
  destruct cur; simpl; try discriminate.
  - destruct k as [x|i]; [discriminate|].
    destruct (norm_index (List.length items) i) as [n|] eqn:En; [|discriminate].
    intros H Hk Hs Hne. inversion H. simpl.
    destruct s as [y|j]; [reflexivity|].
    rewrite list_set_length.
    destruct (norm_index (List.length items) j) as [m|] eqn:Em; [|reflexivity].
    rewrite nth_error_list_set_other; [reflexivity|].
    simpl in Hk, Hs.
    apply (norm_index_front (List.length items) j i m n); auto.
    intros ->. now apply Hne.
  - intros H _ _ Hne. inversion H. simpl.
    now rewrite dict_get_set_other.
Qed.

Lemma get_by_path_app d p q :
  get_by_path d (p ++ q) = (cur <- get_by_path d p ;; get_by_path cur q).
Proof.
  revert d. induction p as [|s p IH]; intros d; simpl; [reflexivity|].
  destruct (getitem d s); simpl; auto.
Qed.

(** Putting back the object found at a path gives the same document. *)
Lemma store_found d p obj :
  get_by_path d p = Ok obj -> store d p obj = d.
Proof.
  revert d. induction p as [|s p IH]; intros d; simpl.
  - intros H. now inversion H.
  - destruct (getitem d s) as [child|e] eqn:Eg; simpl; [|discriminate].
    intros H. rewrite (IH _ H).
    destruct (setitem d s child) as [d'|e] eqn:Es; [|reflexivity].
    eapply setitem_read_back; eauto.
Qed.

Lemma path_split_last (p : Path) :
  p <> [] -> p = removelast p ++ [last p (Idx 0)].
Proof. intros H. now apply app_removelast_last. Qed.

Lemma set_by_path_nonempty d p v :
  p <> [] ->
  set_by_path d p v =
    match get_by_path d (removelast p) with
    | Raise e => (Raise e, d)
    | Ok parent =>
        match setitem parent (last p (Idx 0)) v with
        | Raise e => (Raise e, d)
        | Ok parent' => (Ok tt, store d (removelast p) parent')
        end
    end.
Proof. destruct p; [contradiction|reflexivity]. Qed.

(** A write that raises leaves the document as it was. *)
Lemma set_by_path_raise_unchanged d p v e d' :
  set_by_path d p v = (Raise e, d') -> d' = d.
Proof.
  destruct p as [|s p].
  - simpl. intros H. now inversion H.
  - rewrite set_by_path_nonempty by discriminate.
    destruct (get_by_path d (removelast (s :: p))) as [parent|e1].
    + destruct (setitem parent (last (s :: p) (Idx 0)) v) as [parent'|e2];
        intros H; inversion H; reflexivity.
    + intros H. now inversion H.
Qed.

(** A successful write, taken apart. *)
Lemma set_by_path_ok_inv d p v d' :
  set_by_path d p v = (Ok tt, d') ->
  exists parent parent',
    p = removelast p ++ [last p (Idx 0)]
    /\ get_by_path d (removelast p) = Ok parent
    /\ setitem parent (last p (Idx 0)) v = Ok parent'
    /\ d' = store d (removelast p) parent'.
Proof.
  destruct p as [|s p]; [simpl; discriminate|].
  rewrite set_by_path_nonempty by discriminate.
  destruct (get_by_path d (removelast (s :: p))) as [parent|e1]; [|discriminate].
  destruct (setitem parent (last (s :: p) (Idx 0)) v) as [parent'|e2] eqn:Es;
    [|discriminate].
  intros H. inversion H. exists parent, parent'.
  repeat split; auto. apply path_split_last. discriminate.
Qed.

Lemma is_prefix_cons s p q : is_prefix p q -> is_prefix (s :: p) (s :: q).
Proof. intros [r ->]. now exists r. Qed.

(** A write into the object at [pre] is not seen from an address that
    leaves the way to the assigned slot. *)
Lemma store_frame v k :
  forall pre d parent parent' q,
    get_by_path d pre = Ok parent ->
    setitem parent k v = Ok parent' ->
    Forall front_step (pre ++ [k]) -> Forall front_step q ->
    ~ is_prefix (pre ++ [k]) q -> ~ is_prefix q (pre ++ [k]) ->
    get_by_path (store d pre parent') q = get_by_path d q.
Proof.
  induction pre as [|t pre IH]; intros d parent parent' q Hget Hset Hp Hq Hpq Hqp.
  - simpl in *. inversion Hget; subst parent.
    destruct q as [|s q]; [exfalso; apply Hqp; now exists [k]|].
    simpl. inversion Hp; subst. inversion Hq; subst.
    destruct (step_eqb s k) eqn:E.
    + apply step_eqb_eq in E. subst s. exfalso. apply Hpq. now exists q.
    + rewrite (getitem_setitem_other _ _ _ _ s Hset); auto.
      intros ->. now rewrite step_eqb_refl in E.
  - simpl in Hget. simpl.
    destruct (getitem d t) as [child|e] eqn:Eg; simpl in Hget; [|discriminate].
    destruct (setitem d t (store child pre parent')) as [d1|e] eqn:Es;
      [|reflexivity].
    destruct q as [|s q]; [exfalso; apply Hqp; now exists (t :: pre ++ [k])|].
    simpl. inversion Hp; subst. inversion Hq; subst.
    destruct (step_eqb s t) eqn:E.
    + apply step_eqb_eq in E. subst s.
      rewrite (getitem_setitem_same _ _ _ _ Es), Eg. simpl.
      eapply IH; eauto.
      * intros Hx. apply Hpq. now apply is_prefix_cons.
      * intros Hx. apply Hqp. now apply (is_prefix_cons t) in Hx.
    + rewrite (getitem_setitem_other _ _ _ _ s Es); auto.
      intros ->. now rewrite step_eqb_refl in E.
Qed.

(* ================================================================== *)
(** * Resolving and writing *)

(** C2: when an address reaches an array and its next step is a string, the
    resolution raises [TypeError]; when the next step is an integer outside
    the array's range (above it, or below it from the end), it raises
    [IndexError].  Both are exceptions of subscripting, the address errors
    of the specification. *)
Theorem resolve_array_step_fails (d : JSONType) (pre rest : Path)
  (items : list JSONType) :
  get_by_path d pre = Ok (JList items) ->
  (forall k, get_by_path d (pre ++ Key k :: rest) = Raise TypeError)
  /\ (forall i,
        (i < - Z.of_nat (List.length items) \/ Z.of_nat (List.length items) <= i)%Z ->
        get_by_path d (pre ++ Idx i :: rest) = Raise IndexError).
Proof.
  intros H. split.
  - intros k. rewrite get_by_path_app, H. reflexivity.
  - intros i Hi. rewrite get_by_path_app, H. simpl.
    now rewrite norm_index_out_of_range.
Qed.

Lemma resolve_array_step_fails_witness :
  get_by_path Sample.mixed_doc [Key "b"; Key "k"; Idx 0] = Raise TypeError
  /\ get_by_path Sample.mixed_doc [Key "b"; Idx 2] = Raise IndexError
  /\ get_by_path Sample.mixed_doc [Key "b"; Idx (-3)] = Raise IndexError.
Proof.
  destruct (resolve_array_step_fails Sample.mixed_doc [Key "b"] [Idx 0%Z]
              [JInt 1; JInt 2] eq_refl) as [Hkey _].
  destruct (resolve_array_step_fails Sample.mixed_doc [Key "b"] []
              [JInt 1; JInt 2] eq_refl) as [_ Hidx].
  split; [apply (Hkey "k"%string)|].
  split; [apply (Hidx 2%Z)|apply (Hidx (-3)%Z)]; simpl; lia.
Defined.

(** C4: writing back at an address the value just read there leaves the
    document as it was.  At the empty address, and at an index into a
    string, the write raises and changes nothing; everywhere else it
    assigns to the slot its own value. *)
Theorem write_back_unchanged (d : JSONType) (p : Path) (v : JSONType) :
  get_by_path d p = Ok v -> snd (set_by_path d p v) = d.
Proof.
  intros Hget. destruct p as [|s p]; [reflexivity|].
  rewrite set_by_path_nonempty by discriminate.
  assert (Esplit : s :: p = removelast (s :: p) ++ [last (s :: p) (Idx 0)])
    by (apply path_split_last; discriminate).
  remember (removelast (s :: p)) as pre.
  remember (last (s :: p) (Idx 0)) as k.
  rewrite Esplit, get_by_path_app in Hget.
  destruct (get_by_path d pre) as [parent|e] eqn:Ep; [|discriminate].
  cbn [bind get_by_path] in Hget.
  destruct (getitem parent k) as [x|e] eqn:Eg; [|discriminate].
  cbn [bind] in Hget. inversion Hget; subst x.
  destruct (setitem parent k v) as [parent'|e] eqn:Es; [|reflexivity].
  cbn [snd]. rewrite (setitem_read_back _ _ _ _ Eg Es).
  now apply store_found.
Qed.

Lemma write_back_unchanged_witness :
  snd (set_by_path Sample.nested_doc [Key "a"; Key "b"] (JInt 1)) = Sample.nested_doc
  /\ snd (set_by_path Sample.nested_doc [] Sample.nested_doc) = Sample.nested_doc.
Proof.
  split.
  - apply (write_back_unchanged Sample.nested_doc [Key "a"; Key "b"] (JInt 1)).
    reflexivity.
  - apply (write_back_unchanged Sample.nested_doc [] Sample.nested_doc).
    reflexivity.
Defined.

(** C7: a write at the empty address raises [ValueError], the address error
    of a refused root overwrite, and the document is the one it was.  The
    same holds of every write that raises, at any address: the exception
    comes before the assignment, or out of it. *)
Theorem set_by_path_root_refused (d v : JSONType) :
  set_by_path d [] v
  = (Raise (ValueError "Refusing to overwrite root object"), d)
  /\ forall p, match set_by_path d p v with
               | (Raise _, d') => d' = d
               | (Ok _, _) => True
               end.
Proof.
  split; [reflexivity|].
  intros p. destruct (set_by_path d p v) as [[u|e] d'] eqn:E; [exact I|].
  exact (set_by_path_raise_unchanged d p v e d' E).
Qed.

(** C10 as it is worded does not hold: an address above the written slot is
    neither the slot nor below it, and resolves to a changed value. *)
Lemma frame_below_only_fails :
  ~ frame_below_only Sample.nested_doc [Key "a"; Key "b"] (JInt 2) [Key "a"].
Proof.
  intros H.
  assert (E : get_by_path (JDict [(Key "a", JDict [(Key "b", JInt 2)])]) [Key "a"]
              = get_by_path Sample.nested_doc [Key "a"]).
  { apply H.
    - discriminate.
    - exists (JInt 1). reflexivity.
    - reflexivity.
    - discriminate.
    - intros [r Hr]. discriminate. }
  discriminate.
Qed.

(** C10, amended: after a successful write at an address [p] that resolved,
    an address [q] that is neither below [p] nor above it (neither is a
    prefix of the other), both made of keys and of indices counted from the
    front, resolves to what it resolved to before: the same value, or the
    same exception. *)
Theorem write_frame (d : JSONType) (p : Path) (v : JSONType) (q : Path)
  (d' old : JSONType) :
  get_by_path d p = Ok old ->
  set_by_path d p v = (Ok tt, d') ->
  Forall front_step p -> Forall front_step q ->
  ~ is_prefix p q -> ~ is_prefix q p ->
  get_by_path d' q = get_by_path d q.
Proof.
  intros _ Hset Hp Hq Hpq Hqp.
  destruct (set_by_path_ok_inv _ _ _ _ Hset) as (parent & parent' & Esplit & Eg & Es & ->).
  rewrite Esplit in Hp, Hpq, Hqp.
  eapply store_frame; eauto.
Qed.

Lemma write_frame_witness :
  get_by_path
    (JDict [(Key "b", JList [JInt 1; JInt 7]); (Key "a", JStr "t"); (Key "c", JDict [])])
    [Key "b"; Idx 0]
  = get_by_path Sample.mixed_doc [Key "b"; Idx 0].
Proof.
  apply (write_frame Sample.mixed_doc [Key "b"; Idx 1] (JInt 7) [Key "b"; Idx 0]
           _ (JInt 2)).
  - reflexivity.
  - reflexivity.
  - repeat constructor; simpl; lia.
  - repeat constructor; simpl; lia.
  - intros [r Hr]. discriminate.
  - intros [r Hr]. discriminate.
Defined.

(* ================================================================== *)
(** * The hex dump *)

(** The lines of a dump are the rows of the first [limit] bytes, and the
    marker as soon as the input has [limit] bytes or more. *)
Lemma hexdump_lines_marker (width limit : nat) (b : list byte) :
  hexdump_lines width limit b
  = hexdump_rows width (firstn limit b)
    ++ (if limit <=? List.length b then [truncation_marker] else []).
Proof.
  unfold hexdump_lines.
  rewrite length_firstn.
  destruct (limit <=? List.length b) eqn:E.
  - apply Nat.leb_le in E. rewrite Nat.min_l by lia.
    now rewrite Nat.eqb_refl.
  - apply Nat.leb_gt in E. rewrite Nat.min_r by lia.
    assert (N : Nat.eqb (List.length b) limit = false)
      by (apply Nat.eqb_neq; lia).
    rewrite N. now rewrite app_nil_r.
Qed.

(** Every row holds at most [width] bytes, and [width] of them when that
    many are left. *)
Lemma hexdump_chunk_length (width i : nat) (b : list byte) :
  List.length (firstn width (skipn i b)) = Nat.min width (List.length b - i).
Proof. now rewrite length_firstn, length_skipn. Qed.

(** Five bytes, three of them not printable: one row, the offset in front,
    the hex column padded to 48 characters, a dot for each byte outside
    32..126, and no marker. *)
Example hexdump_five_bytes :
  hexdump_lines hexdump_width hexdump_limit [x41; x00; x7e; x7f; xff]
  = [("00000000  41 00 7e 7f ff" ++ PyStr.spaces 34 ++ "  A.~..")%string].
Proof. reflexivity. Qed.

(** C3, at an input of exactly 8192 bytes: nothing is cut off, yet the last
    line of the dump is the truncation marker.  The marker is written when
    the input has 8192 bytes or more, not when it has more than 8192. *)
Theorem hexdump_marks_untruncated_input :
  let b := repeat Byte.x00 hexdump_limit in
  List.length b = 8 * 1024
  /\ firstn hexdump_limit b = b
  /\ last (hexdump_lines hexdump_width hexdump_limit b) EmptyString
     = truncation_marker.
Proof.
  intros b.
  assert (L : List.length b = hexdump_limit) by apply repeat_length.
  split; [exact L|]. split.
  - rewrite <- L. apply firstn_all.
  - rewrite hexdump_lines_marker.
    assert (E : (hexdump_limit <=? List.length b) = true)
      by (apply Nat.leb_le; lia).
    rewrite E. apply last_last.
Qed.

(* ================================================================== *)
(** * Sorting the keys *)

Lemma key_le_total a b : key_le a b \/ key_le b a.
Proof. apply String.leb_total. Qed.

Lemma insert_by_In {A : Type} (key : A -> string) (x y : A) (l : list A) :
  In y (PyStr.insert_by key x l) <-> y = x \/ In y l.
Proof.
  induction l as [|z l IH]; simpl.
  - intuition.
  - destruct (String.leb (key x) (key z)); simpl; rewrite ?IH; intuition.
Qed.

Lemma sorted_In {A : Type} (key : A -> string) (y : A) (l : list A) :
  In y (PyStr.sorted key l) <-> In y l.
Proof.
  induction l as [|x l IH]; simpl; [reflexivity|].
  rewrite insert_by_In, IH. intuition.
Qed.

Lemma insert_by_HdRel (x y : step) (l : list step) :
  key_le y x -> HdRel key_le y l ->
  HdRel key_le y (PyStr.insert_by str_of_step x l).
Proof.
  intros Hyx Hl. destruct l as [|z l]; simpl.
  - now constructor.
  - destruct (String.leb (str_of_step x) (str_of_step z)); constructor; auto.
    now inversion Hl.
Qed.

Lemma insert_by_Sorted (x : step) (l : list step) :
  Sorted key_le l -> Sorted key_le (PyStr.insert_by str_of_step x l).
Proof.
  induction l as [|y l IH]; simpl; intros Hs.
  - repeat constructor.
  - destruct (String.leb (str_of_step x) (str_of_step y)) eqn:E.
    + constructor; [exact Hs|]. constructor. exact E.
    + inversion Hs; subst. constructor; [now apply IH|].
      apply insert_by_HdRel; [|assumption].
      destruct (key_le_total x y) as [H|H]; [|exact H].
      unfold key_le in H. congruence.
Qed.

Lemma sorted_Sorted (l : list step) :
  Sorted key_le (PyStr.sorted str_of_step l).
Proof.
  induction l as [|x l IH]; simpl; [constructor|].
  now apply insert_by_Sorted.
Qed.

(* ================================================================== *)
(** * Populating a node *)

Lemma dict_get_In m k :
  In k (map fst m) -> exists v, dict_get m k = Some v.
Proof.
  induction m as [|[k' v'] m IH]; simpl; [contradiction|].
  intros [->|H].
  - rewrite step_eqb_refl. eauto.
  - destruct (step_eqb k' k); eauto.
Qed.

Lemma mapM_total {A B : Type} (f : A -> res B) (l : list A) :
  (forall x, In x l -> exists y, f x = Ok y) -> exists ys, mapM f l = Ok ys.
Proof.
  induction l as [|x l IH]; simpl; intros H; [eauto|].
  destruct (H x (or_introl eq_refl)) as [y ->].
  destruct IH as [ys ->]; [intros; apply H; auto|].
  simpl. eauto.
Qed.

Lemma mapM_map {A B C : Type} (f : A -> res B) (g : B -> C) (h : A -> C) :
  (forall x y, f x = Ok y -> g y = h x) ->
  forall l ys, mapM f l = Ok ys -> map g ys = map h l.
Proof.
  intros Hf. induction l as [|x l IH]; simpl; intros ys H.
  - now inversion H.
  - destruct (f x) as [y|e] eqn:Ef; simpl in H; [|discriminate].
    destruct (mapM f l) as [ys'|e] eqn:Em; simpl in H; [|discriminate].
    inversion H. simpl. rewrite (Hf _ _ Ef), (IH _ eq_refl). reflexivity.
Qed.

Lemma child_node_path shown p v : path (node_data (child_node shown p v)) = p.
Proof. unfold child_node. now destruct (is_leaf v). Qed.

(** The children of a dict never fail to be computed: every key that the
    loop looks up is a key of the dict. *)
Lemma children_of_total p value : exists cs, children_of p value = Ok cs.
Proof.
  destruct value; simpl; eauto.
  apply mapM_total. intros k Hk.
  apply sorted_In in Hk. destruct (dict_get_In _ _ Hk) as [v ->].
  simpl. eauto.
Qed.

(** [_populate_children] returns whenever the node's address resolves. *)
Lemma populate_children_total doc node v :
  get_by_path doc (path (node_data node)) = Ok v ->
  exists n1, _populate_children doc node = Ok n1.
Proof.
  intros H. unfold _populate_children.
  destruct (path (node_data node)) as [|s p] eqn:Ep.
  - simpl. destruct (children_of_total [] doc) as [cs ->]. simpl. eauto.
  - rewrite H. simpl.
    destruct (children_of_total (s :: p) v) as [cs ->]. simpl. eauto.
Qed.

Lemma populate_children_again doc node n1 :
  _populate_children doc node = Ok n1 -> _populate_children doc n1 = Ok n1.
Proof.
  unfold _populate_children.
  destruct (match path (node_data node) with
            | [] => Ok doc
            | _ :: _ => get_by_path doc (path (node_data node))
            end) as [value|e] eqn:Ev; simpl; [|discriminate].
  destruct (children_of (path (node_data node)) value) as [cs|e] eqn:Ec;
    simpl; [|discriminate].
  intros H. inversion H. simpl.
  rewrite Ev. simpl. rewrite Ec. reflexivity.
Qed.

(** C9: populating a node a second time, the document being the same, gives
    the node the first call gave (the same children with the same
    addresses, kinds and labels, in the same order), and a call that raises
    raises again.  Under a dict the children follow the keys in the order of
    [sorted(..., key=str)], one child at [address + [key]] for every key. *)
Theorem populate_children_idempotent (doc : JSONType) (node : Node) :
  (n1 <- _populate_children doc node ;; _populate_children doc n1)
  = _populate_children doc node
  /\ forall n1 m,
       _populate_children doc node = Ok n1 ->
       get_by_path doc (path (node_data node)) = Ok (JDict m) ->
       exists keys,
         map (fun c => path (node_data c)) (node_children n1)
         = map (fun k => path (node_data node) ++ [k]) keys
         /\ Sorted key_le keys
         /\ (forall k, In k keys <-> In k (map fst m)).
Proof.
  split.
  - destruct (_populate_children doc node) as [n1|e] eqn:E; simpl; [|reflexivity].
    now apply (populate_children_again doc node).
  - intros n1 m Hpop Hget.
    exists (PyStr.sorted str_of_step (map fst m)).
    split; [|split; [apply sorted_Sorted|intros k; apply sorted_In]].
    unfold _populate_children in Hpop.
    assert (Ev : match path (node_data node) with
                 | [] => Ok doc
                 | _ :: _ => get_by_path doc (path (node_data node))
                 end = Ok (JDict m)).
    { destruct (path (node_data node)); [simpl in Hget|]; exact Hget. }
    rewrite Ev in Hpop. simpl in Hpop.
    destruct (mapM _ _) as [cs|e] eqn:Em; simpl in Hpop; [|discriminate].
    inversion Hpop. simpl.
    eapply mapM_map; [|exact Em].
    intros k c Hc. simpl in Hc.
    destruct (dict_get m k); simpl in Hc; [|discriminate].
    inversion Hc. apply child_node_path.
Qed.

Lemma populate_children_idempotent_witness :
  exists keys,
    map (fun c => path (node_data c)) (node_children (tree (Sample.opened Sample.mixed_doc)))
    = map (fun k => [] ++ [k]) keys
    /\ Sorted key_le keys
    /\ (forall k, In k keys <-> In k [Key "b"; Key "a"; Key "c"]%string).
Proof.
  apply (proj2 (populate_children_idempotent Sample.mixed_doc
                  (expand (tree (on_mount Sample.mixed_doc "JSON"))))
           (tree (Sample.opened Sample.mixed_doc))
           [(Key "b", JList [JInt 1; JInt 2]); (Key "a", JStr "t");
            (Key "c", JDict [])]%string).
  - reflexivity.
  - reflexivity.
Defined.

(* ================================================================== *)
(** * Refreshing the tree *)

Lemma at_node_keeps a r body a' :
  at_node a r body = Ok a' ->
  app_data a' = app_data a /\ screens a' = screens a.
Proof.
  unfold at_node. destruct (node_at (tree a) r) as [n|].
  - destruct (body n) as [n'|e]; simpl; [|discriminate].
    intros H. inversion H. auto.
  - intros H. inversion H. auto.
Qed.

(** The refresh touches the tree only: the document and the screens stay. *)
Lemma refresh_keeps_doc_and_screens a p a' :
  _refresh_tree_after_value_change a p = Ok a' ->
  app_data a' = app_data a /\ screens a' = screens a.
Proof.
  unfold _refresh_tree_after_value_change.
  destruct (match p with
            | [] => Ok (app_data a)
            | _ :: _ => get_by_path (app_data a) p
            end) as [new_value|e]; simpl; [|discriminate].
  destruct p as [|s p].
  - destruct (is_branch_kind (kind_of new_value)).
    + destruct (_populate_children _ _) as [n|e]; simpl; [|discriminate].
      intros H. inversion H. auto.
    + intros H. inversion H. auto.
  - destruct (find_from (removelast (s :: p)) (tree a)) as [parent_ref|];
      [|intros H; inversion H; auto].
    destruct (node_at (tree a) parent_ref) as [parent_node|];
      [|intros H; inversion H; auto].
    destruct (negb (is_branch_kind (kind (node_data parent_node))));
      [intros H; inversion H; auto|].
    destruct (_populate_children _ _) as [n|e]; simpl; [|discriminate].
    destruct (negb (is_leaf new_value)).
    + destruct (find_from (s :: p) _) as [new_ref|].
      * intros H. apply at_node_keeps in H. simpl in H. exact H.
      * intros H. inversion H. auto.
    + intros H. inversion H. auto.
Qed.

(* ================================================================== *)
(** * The leaf operations *)

Section OperationFacts.

Context {lib : PyLib}.

(** [_edit_leaf] writes the document and leaves the tree as it is. *)
Lemma edit_leaf_keeps_tree editor a node a' :
  _edit_leaf editor a node = Ok a' -> tree a' = tree a.
Proof.
  unfold _edit_leaf.
  destruct (get_by_path (app_data a) (path (node_data node))) as [old|e];
    simpl; [|discriminate].
  destruct (editor (initial_text old)) as [edited|].
  - destruct (edit_replacement old edited) as [v|e]; simpl; [|discriminate].
    unfold write_edited.
    destruct (set_by_path _ _ _) as [[u|e] d]; intros H; inversion H; reflexivity.
  - intros H. now inversion H.
Qed.

(** C5: when the decoded bytes are UTF-8 text that begins, after its
    leading whitespace, with an opening brace or bracket, accepting the
    replacement writes the parsed value if the text parses as JSON, and
    writes the text itself if it does not.  In the second case the parse
    failure shows nowhere: the operation is the plain write of the text, and
    when that write succeeds no screen is pushed.  An exception of
    [json.loads] that is not the parse failure is not caught: it leaves the
    handler and nothing is written.  The case of the Base64 string
    eyJhIjoxfQ== is worked out on a sample document further down. *)
Theorem decode_promotes_json (a : App) (node : Node) (src : string)
  (raw : list byte) (text : string) :
  get_by_path (app_data a) (path (node_data node)) = Ok (JStr src) ->
  b64decode src = inr raw ->
  PyBytes.decode_utf8 raw = Some text ->
  PyStr.startswith (PyStr.lstrip text) "{"
  || PyStr.startswith (PyStr.lstrip text) "[" = true ->
  let p := path (node_data node) in
  let scr := b64_on_mount ("Base64 decode of " ++ path_to_str p) src in
  let shown := push_screen a (Base64Decode scr) in
  b64_result scr
     = Some {| decoded_text := Some text; decoded_bytes_preview := None;
               replacement_value := Some text |}
  /\ (forall parsed,
        json_loads text = Parsed parsed ->
        b64_operation a node PressReplace = replace_value shown p parsed)
  /\ (json_loads text = JSONDecodeError ->
      b64_operation a node PressReplace = replace_value shown p (JStr text)
      /\ forall d' a',
           set_by_path (app_data a) p (JStr text) = (Ok tt, d') ->
           b64_operation a node PressReplace = Ok a' ->
           app_data a' = d' /\ screens a' = screens shown)
  /\ (forall e,
        json_loads text = LoadsRaises e ->
        b64_operation a node PressReplace = Raise e).
Proof.
  intros Hget Hb64 Hutf Hstart p scr shown.
  assert (Escr : b64_result scr
                 = Some {| decoded_text := Some text; decoded_bytes_preview := None;
                           replacement_value := Some text |}).
  { unfold scr, b64_on_mount. rewrite Hb64, Hutf. reflexivity. }
  assert (Eop : b64_operation a node PressReplace
                = (replacement <- match json_loads text with
                                  | JSONDecodeError => Ok (JStr text)
                                  | Parsed parsed => Ok parsed
                                  | LoadsRaises e => Raise e
                                  end ;;
                   replace_value shown p replacement)).
  { unfold b64_operation, _b64_leaf. rewrite Hget.
    cbn [bind snd fst]. fold p. fold scr. fold shown.
    unfold handle_base64. cbn [b64_dismiss]. rewrite Escr.
    cbn [replacement_value].
    unfold b64_replacement. cbn [decoded_text]. rewrite Hstart. reflexivity. }
  split; [exact Escr|]. split; [|split].
  - intros parsed Hp. rewrite Eop, Hp. reflexivity.
  - intros Hnone. rewrite Eop, Hnone. cbn [bind]. split; [reflexivity|].
    intros d' a' Hset. unfold replace_value.
    change (app_data shown) with (app_data a). rewrite Hset.
    intros Hr. apply refresh_keeps_doc_and_screens in Hr. exact Hr.
  - intros e He. rewrite Eop, He. reflexivity.
Qed.

(** C8: on a string leaf that [b64decode] rejects, the decode screen
    reports the failure, holds no result and hides its replace button;
    whatever the operator does then, nothing is written: the document and
    the tree are the ones before, and the leaf still holds the string. *)
Theorem invalid_base64_proposes_nothing (a : App) (node : Node)
  (s e : string) (ev : b64_event) :
  get_by_path (app_data a) (path (node_data node)) = Ok (JStr s) ->
  b64decode s = inl e ->
  let p := path (node_data node) in
  let scr := b64_on_mount ("Base64 decode of " ++ path_to_str p) s in
  b64_result scr = None
  /\ b64_log scr = _log_write_lines [] ("❌ Decode failed: " ++ e)
  /\ b64_replace_display scr = false
  /\ b64_dismiss scr ev = None
  /\ exists a',
       b64_operation a node ev = Ok a'
       /\ app_data a' = app_data a
       /\ tree a' = tree a
       /\ screens a' = screens a ++ [Base64Decode scr]
       /\ get_by_path (app_data a') p = Ok (JStr s).
Proof.
  intros Hget Hb64 p scr.
  assert (Eres : b64_result scr = None).
  { unfold scr, b64_on_mount. now rewrite Hb64. }
  assert (Edis : b64_dismiss scr ev = None).
  { destruct ev; simpl; auto. }
  split; [exact Eres|].
  split; [unfold scr, b64_on_mount; now rewrite Hb64|].
  split; [unfold scr, b64_on_mount; now rewrite Hb64|].
  split; [exact Edis|].
  exists (push_screen a (Base64Decode scr)).
  split; [|now repeat split].
  unfold b64_operation, _b64_leaf. rewrite Hget.
  cbn [bind snd fst]. fold p. fold scr. rewrite Edis. reflexivity.
Qed.

(** C6: the value [_edit_leaf] writes.  On a string leaf it is the edited
    text, whatever [json_loads] would make of it (the statement holds for
    every [json_loads], so the text is not parsed).  On any other leaf the
    edited text is parsed: the value written is what it parses to, and the
    edited text as a string when the parse fails with [JSONDecodeError].
    When [json.loads] raises anything else, that exception is not caught:
    it leaves the handler and nothing is written. *)
Theorem edit_leaf_replacement (editor : string -> option string) (a : App)
  (node : Node) (old : JSONType) (edited : string) :
  get_by_path (app_data a) (path (node_data node)) = Ok old ->
  editor (initial_text old) = Some edited ->
  let p := path (node_data node) in
  (forall s, old = JStr s ->
     edit_replacement old edited = Ok (JStr edited)
     /\ _edit_leaf editor a node = Ok (write_edited a p (JStr edited)))
  /\ ((forall s, old <> JStr s) ->
      (forall v, json_loads edited = Parsed v ->
         edit_replacement old edited = Ok v
         /\ _edit_leaf editor a node = Ok (write_edited a p v))
      /\ (json_loads edited = JSONDecodeError ->
          edit_replacement old edited = Ok (JStr edited)
          /\ _edit_leaf editor a node = Ok (write_edited a p (JStr edited)))
      /\ (forall e, json_loads edited = LoadsRaises e ->
            edit_replacement old edited = Raise e
            /\ _edit_leaf editor a node = Raise e)).
Proof.
  intros Hget Hed p.
  assert (Erun : _edit_leaf editor a node
                 = (new_value <- edit_replacement old edited ;;
                    Ok (write_edited a p new_value))).
  { unfold _edit_leaf. rewrite Hget. cbn [bind]. now rewrite Hed. }
  split.
  - intros s ->. split; [reflexivity|]. rewrite Erun. reflexivity.
  - intros Hns.
    assert (Eparse : edit_replacement old edited
                     = match json_loads edited with
                       | Parsed v => Ok v
                       | JSONDecodeError => Ok (JStr edited)
                       | LoadsRaises e => Raise e
                       end).
    { destruct old; try reflexivity. exfalso. now apply (Hns s). }
    split; [|split].
    + intros v Hv. rewrite Erun, Eparse, Hv. split; reflexivity.
    + intros Hv. rewrite Erun, Eparse, Hv. split; reflexivity.
    + intros e Hv. rewrite Erun, Eparse, Hv. split; reflexivity.
Qed.

End OperationFacts.

(* ================================================================== *)
(** * The operations on the sample documents *)

Lemma decode_promotes_json_witness :
  b64_operation (lib := py) Sample.blob_app Sample.blob_node PressReplace
  = replace_value
      (push_screen Sample.blob_app
         (Base64Decode
            (b64_on_mount (lib := py) "Base64 decode of blob" "eyJhIjoxfQ==")))
      [Key "blob"] Sample.object_value.
Proof.
  destruct (@decode_promotes_json py Sample.blob_app Sample.blob_node
              "eyJhIjoxfQ==" (list_byte_of_string Sample.object_text)
              Sample.object_text eq_refl eq_refl eq_refl eq_refl)
    as (_ & Hparsed & _).
  apply (Hparsed Sample.object_value). reflexivity.
Defined.

(** The decode of eyJhIjoxfQ==, accepted, to its end: the document holds
    the object, and the tree, refreshed, shows a dict with the child [a]. *)
Example decode_blob_refreshes_tree :
  exists a',
    b64_operation (lib := py) Sample.blob_app Sample.blob_node PressReplace = Ok a'
    /\ get_by_path (app_data a') [Key "blob"] = Ok Sample.object_value
    /\ kind_at (tree a') [Key "blob"] = Some KDict
    /\ kind_at (tree a') [Key "blob"; Key "a"] = Some KLeaf.
Proof.
  eexists. split; [vm_compute; reflexivity|].
  repeat split.
Qed.

Lemma invalid_base64_proposes_nothing_witness :
  b64_result (b64_on_mount (lib := py) "Base64 decode of s" "!!!") = None
  /\ exists a',
       b64_operation (lib := py) Sample.bad_app Sample.bad_node PressReplace = Ok a'
       /\ app_data a' = app_data Sample.bad_app
       /\ tree a' = tree Sample.bad_app
       /\ screens a'
          = screens Sample.bad_app
            ++ [Base64Decode (b64_on_mount (lib := py) "Base64 decode of s" "!!!")]
       /\ get_by_path (app_data a') [Key "s"] = Ok (JStr "!!!").
Proof.
  destruct (@invalid_base64_proposes_nothing py Sample.bad_app Sample.bad_node
              "!!!" "Error('Only base64 data is allowed')" PressReplace
              eq_refl eq_refl)
    as (Hres & _ & _ & _ & Hop).
  split; [exact Hres|exact Hop].
Defined.

Lemma edit_leaf_replacement_witness :
  (edit_replacement (lib := py) (JStr "t") "hello world" = Ok (JStr "hello world")
   /\ _edit_leaf (lib := py) Sample.types_hello Sample.mixed_app Sample.mixed_node
      = Ok (write_edited Sample.mixed_app [Key "a"] (JStr "hello world")))
  /\ (edit_replacement (lib := py) (JInt 42) Sample.object_text
      = Ok Sample.object_value
      /\ _edit_leaf (lib := py) Sample.types_object Sample.number_app
           Sample.number_node
         = Ok (write_edited Sample.number_app [Key "x"] Sample.object_value)).
Proof.
  destruct (@edit_leaf_replacement py Sample.types_hello Sample.mixed_app
              Sample.mixed_node (JStr "t") "hello world" eq_refl eq_refl)
    as [Hstr _].
  destruct (@edit_leaf_replacement py Sample.types_object Sample.number_app
              Sample.number_node (JInt 42) Sample.object_text eq_refl eq_refl)
    as [_ Hother].
  split; [apply (Hstr "t"%string); reflexivity|].
  assert (Hns : forall s, JInt 42 <> JStr s) by discriminate.
  destruct (Hother Hns) as [Hparsed _].
  apply (Hparsed Sample.object_value). reflexivity.
Defined.

(** C1, on the document [{"x": 42}] with the root opened: the editor hands
    back [{"a":1}] for the leaf [x].  [_edit_leaf] writes the object into
    the document and stops there: the tree is the tree from before, the
    node of [x] is still a leaf and no node has the address [x.a].  Running
    [_refresh_tree_after_value_change] on the address, as the decode
    operation does after its write, is what gives the node the kind of a
    dict and the child [a]. *)
Theorem edit_leaves_tree_stale :
  path (node_data Sample.number_node) = [Key "x"]
  /\ get_by_path (app_data Sample.number_app) [Key "x"] = Ok (JInt 42)
  /\ exists a',
       _edit_leaf (lib := py) Sample.types_object Sample.number_app
         Sample.number_node = Ok a'
       /\ get_by_path (app_data a') [Key "x"] = Ok Sample.object_value
       /\ tree a' = tree Sample.number_app
       /\ kind_at (tree a') [Key "x"] = Some KLeaf
       /\ kind_at (tree a') [Key "x"; Key "a"] = None
       /\ exists a'',
            _refresh_tree_after_value_change a' [Key "x"] = Ok a''
            /\ kind_at (tree a'') [Key "x"] = Some KDict
            /\ kind_at (tree a'') [Key "x"; Key "a"] = Some KLeaf.
Proof.
  split; [reflexivity|]. split; [reflexivity|].
  eexists. split; [vm_compute; reflexivity|].
  repeat (split; [reflexivity|]).
  eexists. split; [vm_compute; reflexivity|].
  split; reflexivity.
Qed.

(* ================================================================== *)
(** * More on resolving and writing *)

Lemma removelast_snoc (pre : Path) (k : step) : removelast (pre ++ [k]) = pre.
Proof. apply removelast_last. Qed.

Lemma last_snoc (pre : Path) (k : step) : last (pre ++ [k]) (Idx 0) = k.
Proof. apply last_last. Qed.

Lemma set_by_path_snoc d pre k v :
  set_by_path d (pre ++ [k]) v =
    match get_by_path d pre with
    | Raise e => (Raise e, d)
    | Ok parent =>
        match setitem parent k v with
        | Raise e => (Raise e, d)
        | Ok parent' => (Ok tt, store d pre parent')
        end
    end.
Proof.
  rewrite set_by_path_nonempty by (destruct pre; discriminate).
  now rewrite removelast_snoc, last_snoc.
Qed.

(** Whatever is found below a string is a string. *)
Lemma below_string pre : forall s found,
  get_by_path (JStr s) pre = Ok found -> exists c, found = JStr c.
Proof.
  induction pre as [|t pre IH]; intros s found; simpl.
  - intros H. inversion H. eauto.
  - destruct t as [k|i]; simpl; [discriminate|].
    destruct (norm_index _ i) as [n|]; simpl; [|discriminate].
    destruct (nth_error _ n) as [c|]; simpl; [|discriminate].
    apply IH.
Qed.

Lemma setitem_ok_container cur k v cur' :
  setitem cur k v = Ok cur' -> is_leaf cur = false.
Proof. destruct cur; simpl; try discriminate; reflexivity. Qed.

Lemma setitem_where_getitem cur k x y :
  getitem cur k = Ok x -> is_leaf cur = false -> exists cur', setitem cur k y = Ok cur'.
Proof.
  destruct cur; simpl; try discriminate.
  - destruct k as [s|i]; [discriminate|].
    destruct (norm_index _ i) as [n|]; [|discriminate]. eauto.
  - eauto.
Qed.

(** The object put at the end of a path of containers is found there. *)
Lemma get_store_same pre : forall d parent obj,
  get_by_path d pre = Ok parent -> is_leaf parent = false ->
  get_by_path (store d pre obj) pre = Ok obj.
Proof.
  induction pre as [|t pre IH]; intros d parent obj Hget Hc; simpl; [reflexivity|].
  simpl in Hget.
  destruct (getitem d t) as [child|e] eqn:Eg; simpl in Hget; [|discriminate].
  assert (Hd : is_leaf d = false).
  { destruct d; simpl in Eg; try discriminate; try reflexivity.
    destruct t as [k|i]; [discriminate|].
    destruct (norm_index _ i) as [n|]; [|discriminate].
    destruct (nth_error _ n) as [c|]; [|discriminate].
    inversion Eg; subst child.
    destruct (below_string pre _ _ Hget) as [c' ->]. discriminate. }
  destruct (setitem_where_getitem d t child (store child pre obj) Eg Hd) as [d1 Es].
  rewrite Es. rewrite (getitem_setitem_same _ _ _ _ Es). simpl.
  eapply IH; eauto.
Qed.

Lemma dict_set_missing m k v :
  dict_get m k = None -> dict_set m k v = m ++ [(k, v)].
Proof.
  induction m as [|[k' v'] m IH]; simpl; [reflexivity|].
  destruct (step_eqb k' k); [discriminate|].
  intros H. now rewrite IH.
Qed.

(** X1: after a write that succeeded, the written address resolves to the
    written value. *)
Theorem read_after_write (d : JSONType) (p : Path) (v d' : JSONType) :
  set_by_path d p v = (Ok tt, d') -> get_by_path d' p = Ok v.
Proof.
  intros Hset.
  destruct (set_by_path_ok_inv _ _ _ _ Hset)
    as (parent & parent' & Esplit & Eg & Es & ->).
  rewrite Esplit at 2. rewrite get_by_path_app.
  rewrite (get_store_same _ _ _ _ Eg (setitem_ok_container _ _ _ _ Es)).
  simpl. now rewrite (getitem_setitem_same _ _ _ _ Es).
Qed.

Lemma read_after_write_witness :
  get_by_path
    (JDict [(Key "b", JList [JInt 1; JNull]); (Key "a", JStr "t"); (Key "c", JDict [])])
    [Key "b"; Idx (-1)]
  = Ok JNull.
Proof.
  apply (read_after_write Sample.mixed_doc [Key "b"; Idx (-1)] JNull). reflexivity.
Defined.

(** X2: a write under a key that the dict at the parent address does not
    have raises nothing: it adds the key after the keys that are there. *)
Theorem write_adds_missing_key (d : JSONType) (pre : Path) (k : step)
  (v : JSONType) (m : list (step * JSONType)) :
  get_by_path d pre = Ok (JDict m) ->
  dict_get m k = None ->
  exists d',
    set_by_path d (pre ++ [k]) v = (Ok tt, d')
    /\ get_by_path d' pre = Ok (JDict (m ++ [(k, v)])).
Proof.
  intros Hget Hnone.
  exists (store d pre (JDict (m ++ [(k, v)]))). split.
  - rewrite set_by_path_snoc, Hget. simpl. now rewrite dict_set_missing.
  - now apply (get_store_same pre d (JDict m)).
Qed.

Lemma write_adds_missing_key_witness :
  exists d',
    set_by_path Sample.nested_doc ([Key "a"] ++ [Idx 7]) JNull = (Ok tt, d')
    /\ get_by_path d' [Key "a"] = Ok (JDict ([(Key "b", JInt 1)] ++ [(Idx 7, JNull)])).
Proof.
  apply (write_adds_missing_key Sample.nested_doc [Key "a"] (Idx 7) JNull
           [(Key "b", JInt 1)]); reflexivity.
Defined.

(** X3: a write never makes a list longer.  At an index outside the list at
    the parent address it raises [IndexError], at a string step it raises
    [TypeError], and the document stays as it was. *)
Theorem write_outside_list (d : JSONType) (pre : Path) (v : JSONType)
  (items : list JSONType) :
  get_by_path d pre = Ok (JList items) ->
  (forall i,
     (i < - Z.of_nat (List.length items) \/ Z.of_nat (List.length items) <= i)%Z ->
     set_by_path d (pre ++ [Idx i]) v = (Raise IndexError, d))
  /\ (forall k, set_by_path d (pre ++ [Key k]) v = (Raise TypeError, d)).
Proof.
  intros Hget. split.
  - intros i Hi. rewrite set_by_path_snoc, Hget. simpl.
    now rewrite norm_index_out_of_range.
  - intros k. rewrite set_by_path_snoc, Hget. reflexivity.
Qed.

Lemma write_outside_list_witness :
  set_by_path Sample.mixed_doc ([Key "b"] ++ [Idx 2]) JNull
  = (Raise IndexError, Sample.mixed_doc)
  /\ set_by_path Sample.mixed_doc ([Key "b"] ++ [Key "x"]) JNull
     = (Raise TypeError, Sample.mixed_doc).
Proof.
  destruct (write_outside_list Sample.mixed_doc [Key "b"] JNull [JInt 1; JInt 2]
              eq_refl) as [Hidx Hkey].
  split; [apply (Hidx 2%Z); simpl; lia|apply (Hkey "x"%string)].
Defined.

(** X4: an integer step into a string leaf does not fail: it resolves to
    the code point at that place, as a string.  A write at such an address
    raises [TypeError] and leaves the document as it was. *)
Theorem index_into_string (d : JSONType) (pre : Path) (s c : string) (n : nat)
  (v : JSONType) :
  get_by_path d pre = Ok (JStr s) ->
  nth_error (PyStr.code_points s) n = Some c ->
  get_by_path d (pre ++ [Idx (Z.of_nat n)]) = Ok (JStr c)
  /\ set_by_path d (pre ++ [Idx (Z.of_nat n)]) v = (Raise TypeError, d).
Proof.
  intros Hget Hn.
  assert (Hlt : n < List.length (PyStr.code_points s))
    by (apply nth_error_Some; congruence).
  split.
  - rewrite get_by_path_app, Hget. simpl. unfold norm_index.
    destruct (0 <=? Z.of_nat n)%Z eqn:E0; [|lia].
    destruct (Z.of_nat n <? Z.of_nat (List.length (PyStr.code_points s)))%Z eqn:E1;
      [|lia].
    now rewrite Nat2Z.id, Hn.
  - rewrite set_by_path_snoc, Hget. reflexivity.
Qed.

Lemma index_into_string_witness :
  get_by_path Sample.mixed_doc ([Key "a"] ++ [Idx (Z.of_nat 0)]) = Ok (JStr "t")
  /\ set_by_path Sample.mixed_doc ([Key "a"] ++ [Idx (Z.of_nat 0)]) JNull
     = (Raise TypeError, Sample.mixed_doc).
Proof.
  apply (index_into_string Sample.mixed_doc [Key "a"] "t" "t" 0 JNull); reflexivity.
Defined.

(** X5: the other ways a resolution fails.  A key that the dict reached
    does not have raises [KeyError] with that key; any step below null, a
    boolean or a number raises [TypeError]; a string step below a string
    raises [TypeError]. *)
Theorem resolve_failures (d : JSONType) (pre rest : Path) (found : JSONType)
  (k : step) :
  get_by_path d pre = Ok found ->
  match found with
  | JDict m =>
      dict_get m k = None -> get_by_path d (pre ++ k :: rest) = Raise (KeyError k)
  | JNull | JBool _ | JInt _ | JFloat _ =>
      get_by_path d (pre ++ k :: rest) = Raise TypeError
  | JStr _ =>
      forall name, k = Key name -> get_by_path d (pre ++ k :: rest) = Raise TypeError
  | JList _ => True
  end.
Proof.
  intros Hget.
  destruct found; try exact I;
    try (rewrite get_by_path_app, Hget; reflexivity).
  - intros name ->. rewrite get_by_path_app, Hget. reflexivity.
  - intros Hnone. rewrite get_by_path_app, Hget. simpl. now rewrite Hnone.
Qed.

Lemma resolve_failures_witness :
  get_by_path Sample.mixed_doc ([] ++ Key "zz" :: [Idx 0]) = Raise (KeyError (Key "zz"))
  /\ get_by_path Sample.number_doc ([Key "x"] ++ Idx 0 :: []) = Raise TypeError.
Proof.
  split.
  - apply (resolve_failures Sample.mixed_doc [] [Idx 0%Z] Sample.mixed_doc
             (Key "zz") eq_refl).
    reflexivity.
  - apply (resolve_failures Sample.number_doc [Key "x"] [] (JInt 42) (Idx 0)
             eq_refl).
Defined.

(* ================================================================== *)
(** * More on the hex dump *)

Lemma firstn_then_next {A : Type} (a c : nat) (l : list A) :
  firstn a l ++ firstn c (skipn a l) = firstn (a + c) l.
Proof.
  revert l. induction a as [|a IH]; intros l; simpl; [reflexivity|].
  destruct l as [|x l]; simpl.
  - now rewrite firstn_nil.
  - now rewrite IH.
Qed.

Lemma chunks_upto {A : Type} (w n : nat) (l : list A) :
  List.concat (map (fun k => firstn w (skipn (k * w) l)) (seq 0 n)) = firstn (n * w) l.
Proof.
  induction n as [|n IH]; [reflexivity|].
  rewrite seq_S, map_app, concat_app, IH. simpl.
  rewrite app_nil_r, firstn_then_next. f_equal. lia.
Qed.

Lemma rows_needed (len w : nat) :
  0 < w -> len <= (len + w - 1) / w * w /\ ((len + w - 1) / w - 1) * w < len + w.
Proof.
  intros Hw.
  pose proof (Nat.div_mod_eq (len + w - 1) w) as E.
  pose proof (Nat.mod_upper_bound (len + w - 1) w ltac:(lia)) as U.
  split; nia.
Qed.

Lemma hexdump_chunks_concat (w : nat) (b : list byte) :
  0 < w -> List.concat (hexdump_chunks w b) = b.
Proof.
  intros Hw. unfold hexdump_chunks, range_step.
  rewrite map_map, chunks_upto.
  apply firstn_all2. now apply rows_needed.
Qed.

Lemma hexdump_chunks_sizes (w : nat) (b : list byte) :
  0 < w ->
  Forall (fun c => 1 <= List.length c <= w) (hexdump_chunks w b).
Proof.
  intros Hw. unfold hexdump_chunks, range_step.
  rewrite map_map. apply Forall_forall. intros c Hc.
  apply in_map_iff in Hc. destruct Hc as (k & <- & Hk).
  apply in_seq in Hk.
  rewrite length_firstn, length_skipn.
  pose proof (Nat.div_mod_eq (List.length b + w - 1) w) as E.
  pose proof (Nat.mod_upper_bound (List.length b + w - 1) w ltac:(lia)) as U.
  assert (k * w < List.length b) by nia.
  lia.
Qed.

Lemma map_with_image {A B C : Type} (f : A -> C) (h : A -> B) (g : A -> B -> C)
  (l : list A) :
  (forall x, f x = g x (h x)) ->
  map f l = map (fun xy => g (fst xy) (snd xy)) (combine l (map h l)).
Proof.
  intros H. induction l as [|x l IH]; simpl; [reflexivity|].
  now rewrite H, IH.
Qed.

(** X6: the rows of a dump go through the first 8192 bytes in chunks that,
    put end to end, are those bytes: nothing is left out and nothing comes
    twice.  Every chunk holds between 1 and 16 bytes, the row of the chunk
    number [k] carries the offset [16 * k], and there are as many rows as
    chunks of 16 are needed. *)
Theorem hexdump_rows_cover (b : list byte) :
  let cut := firstn hexdump_limit b in
  let chunks := hexdump_chunks hexdump_width cut in
  List.concat chunks = cut
  /\ Forall (fun c => 1 <= List.length c <= 16) chunks
  /\ hexdump_rows hexdump_width cut
     = map (fun kc => hexdump_row hexdump_width (fst kc * 16) (snd kc))
           (combine (seq 0 (List.length chunks)) chunks)
  /\ List.length chunks = (List.length cut + 15) / 16.
Proof.
  intros cut chunks.
  assert (Hw : 0 < hexdump_width) by (unfold hexdump_width; lia).
  assert (Hlen : List.length chunks = (List.length cut + 15) / 16).
  { unfold chunks, hexdump_chunks, range_step, hexdump_width.
    rewrite !length_map, length_seq. f_equal. lia. }
  split; [now apply hexdump_chunks_concat|].
  split; [now apply (hexdump_chunks_sizes hexdump_width cut)|].
  split; [|exact Hlen].
  rewrite Hlen. unfold chunks, hexdump_rows, hexdump_chunks, range_step.
  change (List.length cut + hexdump_width - 1) with (List.length cut + 16 - 1).
  replace (List.length cut + 16 - 1) with (List.length cut + 15) by lia.
  change ((List.length cut + 15) / hexdump_width) with ((List.length cut + 15) / 16).
  rewrite !map_map.
  apply (map_with_image
           (fun k => hexdump_row hexdump_width (k * hexdump_width)
                       (firstn hexdump_width (skipn (k * hexdump_width) cut)))
           (fun k => firstn hexdump_width (skipn (k * hexdump_width) cut))
           (fun k c => hexdump_row hexdump_width (k * 16) c)).
  reflexivity.
Qed.

Lemma hex_digit_head (m : N) :
  (m < 16)%N ->
  exists c, PyStr.hex_digit m = String c EmptyString /\ (N_of_ascii c < 128)%N.
Proof.
  intros Hm. unfold PyStr.hex_digit.
  assert (Hj : N.to_nat m < 16) by lia.
  remember (N.to_nat m) as j eqn:Ej. clear Ej Hm.
  do 16 (destruct j as [|j]; [eexists; split; reflexivity|]).
  lia.
Qed.

Lemma hex_digits_head (w : nat) : forall n,
  exists c rest,
    PyStr.hex_digits (S w) n = String c rest /\ (N_of_ascii c < 128)%N.
Proof.
  induction w as [|w IH]; intros n.
  - destruct (hex_digit_head (n mod 16)) as (c & E & Hc).
    { apply N.mod_lt. discriminate. }
    exists c, EmptyString. simpl. now rewrite E.
  - destruct (IH (n / 16)%N) as (c & rest & E & Hc).
    exists c, (rest ++ PyStr.hex_digit (n mod 16))%string.
    change (PyStr.hex_digits (S (S w)) n)
      with (PyStr.hex_digits (S w) (n / 16) ++ PyStr.hex_digit (n mod 16))%string.
    now rewrite E.
Qed.

Lemma hexdump_row_head (w i : nat) (chunk : list byte) :
  exists c rest, hexdump_row w i chunk = String c rest /\ (N_of_ascii c < 128)%N.
Proof.
  unfold hexdump_row, PyStr.format_hex.
  destruct (Nat.max 8 (PyStr.hex_width (N.to_nat (N.of_nat i)) (N.of_nat i)))
    as [|m] eqn:E; [lia|].
  destruct (hex_digits_head m (N.of_nat i)) as (c & rest & E' & Hc).
  rewrite E'. simpl. eauto.
Qed.

Lemma hexdump_rows_no_marker (w : nat) (b : list byte) :
  ~ In truncation_marker (hexdump_rows w b).
Proof.
  unfold hexdump_rows. intros H. apply in_map_iff in H.
  destruct H as (i & E & _).
  destruct (hexdump_row_head w i (firstn w (skipn i b))) as (c & rest & E' & Hc).
  rewrite E' in E. unfold truncation_marker in E.
  inversion E; subst c. vm_compute in Hc. discriminate.
Qed.

(** X7: the dump holds the line of the truncation marker when the input has
    8192 bytes or more, and only then; no row of the dump can be taken for
    the marker. *)
Theorem hexdump_marker_iff (b : list byte) :
  In truncation_marker (hexdump_lines hexdump_width hexdump_limit b)
  <-> hexdump_limit <= List.length b.
Proof.
  rewrite hexdump_lines_marker.
  destruct (hexdump_limit <=? List.length b) eqn:E.
  - apply Nat.leb_le in E. split; [intros _; exact E|].
    intros _. apply in_or_app. right. now left.
  - apply Nat.leb_gt in E. rewrite app_nil_r. split.
    + intros H. now apply hexdump_rows_no_marker in H.
    + lia.
Qed.

(* ================================================================== *)
(** * More on the tree *)

Lemma Node_induction (P : Node -> Prop) :
  (forall l m a e cs, Forall P cs -> P (MkNode l m a e cs)) -> forall n, P n.
Proof.
  intros H. fix IH 1. intros [l m a e cs]. apply H.
  induction cs as [|c cs IHcs]; constructor; [apply IH|exact IHcs].
Qed.

Lemma path_eqb_eq (p q : Path) : path_eqb p q = true <-> p = q.
Proof.
  unfold path_eqb. revert q.
  induction p as [|a p IH]; intros [|b q]; simpl; split; intros H;
    try discriminate; try reflexivity.
  - apply andb_true_iff in H. destruct H as [Hl H].
    apply andb_true_iff in H. destruct H as [Hab H].
    apply step_eqb_eq in Hab. subst b. f_equal.
    apply IH. now rewrite Hl, H.
  - inversion H; subst. rewrite step_eqb_refl. simpl.
    change (path_eqb q q = true) with (path_eqb q q = true).
    assert (E : q = q) by reflexivity. apply IH in E.
    apply andb_true_iff in E. destruct E as [El Ef].
    now rewrite El, Ef.
Qed.

Lemma find_from_unfold target l m a e cs :
  find_from target (MkNode l m a e cs)
  = if path_eqb (path m) target then Some [] else find_in_children target cs 0.
Proof.
  simpl. destruct (path_eqb (path m) target); [reflexivity|].
  generalize 0. induction cs as [|c cs IH]; intros i; simpl; [reflexivity|].
  now rewrite IH.
Qed.

Lemma find_in_children_sound target cs : forall i r,
  find_in_children target cs i = Some r ->
  exists j c r', r = (i + j) :: r' /\ nth_error cs j = Some c
                 /\ find_from target c = Some r'.
Proof.
  induction cs as [|c cs IH]; intros i r; simpl; [discriminate|].
  destruct (find_in_children target cs (S i)) as [r1|] eqn:E.
  - intros H. inversion H; subst r1.
    destruct (IH _ _ E) as (j & c' & r' & -> & Hn & Hf).
    exists (S j), c', r'. repeat split; auto. f_equal. lia.
  - destruct (find_from target c) as [r'|] eqn:Ef; simpl; [|discriminate].
    intros H. inversion H. exists 0, c, r'. repeat split; auto. f_equal. lia.
Qed.

Lemma find_in_children_complete target cs : forall i j c r',
  nth_error cs j = Some c -> find_from target c = Some r' ->
  exists r, find_in_children target cs i = Some r.
Proof.
  induction cs as [|c0 cs IH]; intros i [|j] c r' Hn Hf; simpl in *;
    try discriminate.
  - inversion Hn; subst c0.
    destruct (find_in_children target cs (S i)); [eauto|].
    rewrite Hf. simpl. eauto.
  - destruct (IH (S i) j c r' Hn Hf) as [r ->]. eauto.
Qed.

Lemma find_from_sound target : forall t r,
  find_from target t = Some r ->
  exists n, node_at t r = Some n /\ path (node_data n) = target.
Proof.
  intros t. induction t as [l m a e cs IH] using Node_induction. intros r.
  rewrite find_from_unfold.
  destruct (path_eqb (path m) target) eqn:E.
  - intros H. inversion H. apply path_eqb_eq in E.
    exists (MkNode l m a e cs). auto.
  - intros H. destruct (find_in_children_sound _ _ _ _ H)
      as (j & c & r' & -> & Hn & Hf).
    rewrite Forall_forall in IH.
    destruct (IH c (nth_error_In _ _ Hn) r' Hf) as (n & Hat & Hp).
    exists n. simpl. now rewrite Hn.
Qed.

Lemma find_from_complete target : forall r t n,
  node_at t r = Some n -> path (node_data n) = target ->
  exists r', find_from target t = Some r'.
Proof.
  induction r as [|j r IH]; intros t n Hat Hp.
  - simpl in Hat. inversion Hat; subst n. destruct t as [l m a e cs].
    rewrite find_from_unfold. simpl in Hp.
    assert (E : path_eqb (path m) target = true) by now apply path_eqb_eq.
    rewrite E. eauto.
  - destruct t as [l m a e cs]. simpl in Hat.
    destruct (nth_error cs j) as [c|] eqn:Hn; [|discriminate].
    destruct (IH c n Hat Hp) as [r' Hf].
    rewrite find_from_unfold.
    destruct (path_eqb (path m) target); [eauto|].
    eapply find_in_children_complete; eauto.
Qed.

(** X8: [_find_node_by_path] is right in both directions.  What it
    returns is a node of the tree whose path is the one looked for, and it
    returns [None] only when no node of the tree has that path. *)
Theorem find_node_by_path_correct (target : Path) (t : Node) :
  (forall r, find_from target t = Some r ->
             exists n, node_at t r = Some n /\ path (node_data n) = target)
  /\ (find_from target t = None ->
      forall r n, node_at t r = Some n -> path (node_data n) <> target).
Proof.
  split.
  - apply find_from_sound.
  - intros Hnone r n Hat Hp.
    destruct (find_from_complete target r t n Hat Hp) as [r' Hr].
    congruence.
Qed.

Lemma find_node_by_path_correct_witness :
  (exists n, node_at (tree Sample.mixed_app) [1] = Some n
             /\ path (node_data n) = [Key "b"])
  /\ (forall r n, node_at (tree Sample.mixed_app) r = Some n ->
                  path (node_data n) <> [Key "b"; Idx 0]).
Proof.
  destruct (find_node_by_path_correct [Key "b"] (tree Sample.mixed_app)) as [Hs _].
  destruct (find_node_by_path_correct [Key "b"; Idx 0] (tree Sample.mixed_app))
    as [_ Hn].
  split; [apply (Hs [1]); reflexivity|apply Hn; reflexivity].
Defined.

Lemma mapM_Forall {A B : Type} (f : A -> res B) (Q : B -> Prop) :
  forall l ys,
    (forall x y, In x l -> f x = Ok y -> Q y) ->
    mapM f l = Ok ys -> Forall Q ys.
Proof.
  induction l as [|x l IH]; simpl; intros ys Hq H.
  - inversion H. constructor.
  - destruct (f x) as [y|e] eqn:Ef; simpl in H; [|discriminate].
    destruct (mapM f l) as [ys'|e] eqn:Em; simpl in H; [|discriminate].
    inversion H. constructor.
    + eapply Hq; [left; reflexivity|exact Ef].
    + apply IH; [|reflexivity].
      intros x0 y0 Hin Hf. eapply Hq; [right; exact Hin|exact Hf].
Qed.

Lemma enumerate_In {A : Type} (l : list A) : forall s i v,
  In (i, v) (combine (seq s (List.length l)) l) ->
  s <= i /\ nth_error l (i - s) = Some v.
Proof.
  induction l as [|x l IH]; intros s i v; simpl; [contradiction|].
  intros [H|H].
  - inversion H; subst. rewrite Nat.sub_diag. auto.
  - destruct (IH _ _ _ H) as [Hle Hn].
    split; [lia|]. replace (i - s) with (S (i - S s)) by lia. exact Hn.
Qed.

Lemma child_node_fresh shown p v : fresh_child_of v (child_node shown p v).
Proof.
  unfold fresh_child_of, child_node.
  destruct v; simpl; repeat split; reflexivity.
Qed.

Lemma getitem_nth (l : list JSONType) (i : nat) (v : JSONType) :
  nth_error l i = Some v -> getitem (JList l) (Idx (Z.of_nat i)) = Ok v.
Proof.
  intros H. simpl. unfold norm_index.
  assert (Hlt : i < List.length l) by (apply nth_error_Some; congruence).
  destruct (0 <=? Z.of_nat i)%Z eqn:E0; [|lia].
  destruct (Z.of_nat i <? Z.of_nat (List.length l))%Z eqn:E1; [|lia].
  now rewrite Nat2Z.id, H.
Qed.

Lemma populate_children_inv doc node n1 :
  _populate_children doc node = Ok n1 ->
  exists value cs,
    get_by_path doc (path (node_data node)) = Ok value
    /\ children_of (path (node_data node)) value = Ok cs
    /\ n1 = MkNode (node_label node) (set_loaded (node_data node) true)
              (node_allow_expand node) (node_expanded node) cs.
Proof.
  unfold _populate_children.
  destruct (match path (node_data node) with
            | [] => Ok doc
            | _ :: _ => get_by_path doc (path (node_data node))
            end) as [value|e] eqn:Ev; simpl; [|discriminate].
  destruct (children_of (path (node_data node)) value) as [cs|e] eqn:Ec;
    simpl; [|discriminate].
  intros H. inversion H. exists value, cs. repeat split; auto.
  destruct (path (node_data node)); [simpl; exact Ev|exact Ev].
Qed.

(** The children computed for the value at [p]: each one step below [p],
    at an address that resolves, and made after the value found there. *)
Lemma children_of_fresh doc p value cs :
  get_by_path doc p = Ok value ->
  children_of p value = Ok cs ->
  Forall (fun c => (exists k, path (node_data c) = p ++ [k])
                   /\ exists v, get_by_path doc (path (node_data c)) = Ok v
                                /\ fresh_child_of v c) cs.
Proof.
  intros Hget Hcs.
  destruct value; simpl in Hcs.
  1-5: inversion Hcs; constructor.
  - inversion Hcs as [Ecs]. clear Hcs Ecs.
    apply Forall_forall. intros c Hc. apply in_map_iff in Hc.
    destruct Hc as ([i v] & <- & Hin). simpl.
    destruct (enumerate_In _ _ _ _ Hin) as [_ Hn]. rewrite Nat.sub_0_r in Hn.
    rewrite child_node_path. split; [eauto|].
    exists v. split; [|apply child_node_fresh].
    rewrite get_by_path_app, Hget.
    cbn [bind get_by_path]. now rewrite (getitem_nth _ _ _ Hn).
  - eapply mapM_Forall; [|exact Hcs].
    intros k c _ Hc. simpl in Hc.
    destruct (dict_get entries k) as [v|] eqn:Ek; simpl in Hc; [|discriminate].
    inversion Hc. rewrite child_node_path. split; [eauto|].
    exists v. split; [|apply child_node_fresh].
    rewrite get_by_path_app, Hget. simpl. now rewrite Ek.
Qed.

(** X9: the children [_populate_children] attaches agree with the document.
    The address of every child resolves, its kind is the kind of the value
    found there, it can be expanded exactly when that value is a dict or a
    list, it counts as loaded exactly when the value is a leaf, and it comes
    collapsed and without children of its own.  The node itself is marked
    loaded and keeps its address and its kind. *)
Theorem populated_children_agree (doc : JSONType) (node n1 : Node) :
  _populate_children doc node = Ok n1 ->
  Forall (fun c => exists v,
            get_by_path doc (path (node_data c)) = Ok v /\ fresh_child_of v c)
         (node_children n1)
  /\ loaded (node_data n1) = true
  /\ path (node_data n1) = path (node_data node)
  /\ kind (node_data n1) = kind (node_data node).
Proof.
  intros H. destruct (populate_children_inv _ _ _ H) as (value & cs & Hget & Hcs & ->).
  split; [|repeat split]. simpl.
  eapply Forall_impl; [|exact (children_of_fresh _ _ _ _ Hget Hcs)].
  intros c [_ Hc]. exact Hc.
Qed.

Lemma populated_children_agree_witness :
  Forall (fun c => exists v,
            get_by_path Sample.mixed_doc (path (node_data c)) = Ok v
            /\ fresh_child_of v c)
         (node_children (tree Sample.mixed_app))
  /\ loaded (node_data (tree Sample.mixed_app)) = true
  /\ path (node_data (tree Sample.mixed_app)) = []
  /\ kind (node_data (tree Sample.mixed_app)) = KDict.
Proof.
  apply (populated_children_agree Sample.mixed_doc
           (expand (tree (on_mount Sample.mixed_doc "JSON")))
           (tree Sample.mixed_app)).
  reflexivity.
Defined.

(** X10: under a list the children come one for each item, in the order of
    the list, the child of the item number [i] at [address + [i]]. *)
Theorem populated_list_children (doc : JSONType) (node n1 : Node)
  (items : list JSONType) :
  get_by_path doc (path (node_data node)) = Ok (JList items) ->
  _populate_children doc node = Ok n1 ->
  map (fun c => path (node_data c)) (node_children n1)
  = map (fun i => path (node_data node) ++ [Idx (Z.of_nat i)])
        (seq 0 (List.length items)).
Proof.
  intros Hget H.
  destruct (populate_children_inv _ _ _ H) as (value & cs & Hget' & Hcs & ->).
  rewrite Hget in Hget'. inversion Hget'; subst value.
  simpl in Hcs. injection Hcs as <-. clear H Hget Hget'.
  simpl. rewrite map_map. unfold enumerate. generalize 0.
  induction items as [|x items IH]; intros s; simpl; [reflexivity|].
  rewrite child_node_path. f_equal. apply IH.
Qed.

Lemma populated_list_children_witness :
  map (fun c => path (node_data c))
      (node_children
         (MkNode "b:" {| path := [Key "b"]; kind := KList; loaded := true |}
                 true false
                 [child_node "[0]" [Key "b"; Idx 0] (JInt 1);
                  child_node "[1]" [Key "b"; Idx 1] (JInt 2)]))
  = map (fun i => [Key "b"] ++ [Idx (Z.of_nat i)]) (seq 0 2).
Proof.
  apply (populated_list_children Sample.mixed_doc
           (MkNode "b:" {| path := [Key "b"]; kind := KList; loaded := false |}
                   true false [])
           _ [JInt 1; JInt 2]); reflexivity.
Defined.

(* ================================================================== *)
(** * Expanding a node *)

Lemma nth_error_replace_nth {A : Type} (l : list A) : forall i x y,
  nth_error l i = Some y -> nth_error (replace_nth l i x) i = Some x.
Proof.
  induction l as [|z l IH]; intros [|i] x y; simpl; try discriminate; auto.
  apply IH.
Qed.

Lemma replace_nth_same {A : Type} (l : list A) : forall i x,
  nth_error l i = Some x -> replace_nth l i x = l.
Proof.
  induction l as [|z l IH]; intros [|i] x; simpl; try discriminate; auto.
  - intros H. now inversion H.
  - intros H. now rewrite IH.
Qed.

Lemma replace_nth_twice {A : Type} (l : list A) : forall i x y,
  replace_nth (replace_nth l i x) i y = replace_nth l i y.
Proof.
  induction l as [|z l IH]; intros [|i] x y; simpl; auto.
  now rewrite IH.
Qed.

Lemma node_at_put_node (r : NodeRef) : forall t n n',
  node_at t r = Some n -> node_at (put_node t r n') r = Some n'.
Proof.
  induction r as [|i r IH]; intros t n n'; simpl; [reflexivity|].
  destruct (nth_error (node_children t) i) as [c|] eqn:E; [|discriminate].
  intros H. simpl. rewrite (nth_error_replace_nth _ _ _ _ E).
  eapply IH; eauto.
Qed.

Lemma put_node_same (r : NodeRef) : forall t n,
  node_at t r = Some n -> put_node t r n = t.
Proof.
  induction r as [|i r IH]; intros t n; simpl.
  - intros H. now inversion H.
  - destruct (nth_error (node_children t) i) as [c|] eqn:E; [|reflexivity].
    intros H. rewrite (IH _ _ H), (replace_nth_same _ _ _ E).
    now destruct t.
Qed.

Lemma put_node_twice (r : NodeRef) : forall t n n1 n2,
  node_at t r = Some n -> put_node (put_node t r n1) r n2 = put_node t r n2.
Proof.
  induction r as [|i r IH]; intros t n n1 n2; simpl; [reflexivity|].
  destruct (nth_error (node_children t) i) as [c|] eqn:E; [|discriminate].
  intros H. simpl. rewrite (nth_error_replace_nth _ _ _ _ E).
  rewrite replace_nth_twice. now rewrite (IH _ _ _ _ H).
Qed.

(** X11: a node is populated once.  After [on_tree_node_expanded] has run
    for a node, running it again for that node changes nothing, not even
    when the document has been changed in between: the children are the
    ones read at the first expansion. *)
Theorem expanded_once (a : App) (r : NodeRef) (a' : App) (d2 : JSONType) :
  on_tree_node_expanded a r = Ok a' ->
  on_tree_node_expanded (with_doc a' d2) r = Ok (with_doc a' d2).
Proof.
  unfold on_tree_node_expanded, at_node.
  destruct (node_at (tree a) r) as [n|] eqn:Hat.
  - destruct (is_branch_kind (kind (node_data n)) && negb (loaded (node_data n)))
      eqn:C.
    + destruct (_populate_children (app_data a) n) as [n'|e] eqn:Ep;
        simpl; [|discriminate].
      intros H. inversion H. simpl.
      rewrite (node_at_put_node _ _ _ n' Hat).
      destruct (populate_children_inv _ _ _ Ep) as (value & cs & _ & _ & ->).
      simpl. rewrite andb_false_r. simpl.
      now rewrite (put_node_twice _ _ _ _ _ Hat).
    + simpl. intros H. inversion H. simpl.
      rewrite (node_at_put_node _ _ _ n Hat), C. simpl.
      now rewrite (put_node_twice _ _ _ _ _ Hat).
  - intros H. inversion H. subst a'. simpl. now rewrite Hat.
Qed.

Lemma expanded_once_witness :
  on_tree_node_expanded (with_doc Sample.mixed_app JNull) []
  = Ok (with_doc Sample.mixed_app JNull).
Proof.
  apply (expanded_once Sample.mixed_app [] Sample.mixed_app JNull). reflexivity.
Defined.

(** X12: [_populate_children] returns exactly when the address of the node
    resolves in the document; the lookups of its loop never raise. *)
Theorem populate_children_returns (doc : JSONType) (node : Node) :
  (exists n1, _populate_children doc node = Ok n1)
  <-> (exists v, get_by_path doc (path (node_data node)) = Ok v).
Proof.
  split.
  - intros [n1 H]. destruct (populate_children_inv _ _ _ H) as (v & _ & Hv & _).
    eauto.
  - intros [v Hv]. unfold _populate_children.
    assert (E : match path (node_data node) with
                | [] => Ok doc
                | _ :: _ => get_by_path doc (path (node_data node))
                end = Ok v).
    { destruct (path (node_data node)); [simpl in Hv|]; exact Hv. }
    rewrite E. simpl.
    destruct (children_of_total (path (node_data node)) v) as [cs ->].
    simpl. eauto.
Qed.

(* ================================================================== *)
(** * More on the leaf operations *)

Section MenuFacts.

Context {lib : PyLib}.
Variable pretty_repr : JSONType -> string.
Variable open_in_editor : string -> option string.

(** X13: an address that does not resolve is not reported by any of the
    three operations: the exception of [get_by_path] leaves the handler, and
    no screen is pushed. *)
Theorem unresolved_address_raises (a : App) (node : Node) (e : exn)
  (ev : b64_event) :
  get_by_path (app_data a) (path (node_data node)) = Raise e ->
  _display_leaf pretty_repr a node = Raise e
  /\ b64_operation a node ev = Raise e
  /\ _edit_leaf open_in_editor a node = Raise e.
Proof.
  intros H. unfold _display_leaf, _value_as_text, b64_operation, _b64_leaf, _edit_leaf.
  rewrite H. repeat split.
Qed.

(** X14: the root is never overwritten.  On a node whose address is empty,
    an edit that comes back with a text, and a decode whose replacement is
    accepted, both end on the error screen with the [ValueError] of
    [set_by_path], the document and the tree being the ones before.  The one
    other way out is an exception of [json.loads] that is not the parse
    failure, on a root that is not a string or on a decoded text that opens
    with a brace or a bracket: it leaves the handler before the write is
    tried, and the document is not touched either. *)
Theorem root_never_replaced (a : App) (node : Node) :
  path (node_data node) = [] ->
  let refused := ValueError "Refusing to overwrite root object" in
  let opens text :=
    PyStr.startswith (PyStr.lstrip text) "{"
    || PyStr.startswith (PyStr.lstrip text) "[" in
  (forall edited,
     open_in_editor (initial_text (app_data a)) = Some edited ->
     ((exists s, app_data a = JStr s)
      \/ forall e, json_loads edited <> LoadsRaises e) ->
     _edit_leaf open_in_editor a node
     = Ok (push_screen a (FailureViewer "Error" "Failed to set value: " refused)))
  /\ (forall edited e,
        open_in_editor (initial_text (app_data a)) = Some edited ->
        (forall s, app_data a <> JStr s) ->
        json_loads edited = LoadsRaises e ->
        _edit_leaf open_in_editor a node = Raise e)
  /\ (forall src raw,
        app_data a = JStr src ->
        b64decode src = inr raw ->
        (forall text e, PyBytes.decode_utf8 raw = Some text -> opens text = true ->
                        json_loads text <> LoadsRaises e) ->
        b64_operation a node PressReplace
        = Ok (push_screen
                (push_screen a (Base64Decode (b64_on_mount "Base64 decode of $" src)))
                (FailureViewer "Error" "Failed to replace value: " refused)))
  /\ (forall src raw text e,
        app_data a = JStr src ->
        b64decode src = inr raw ->
        PyBytes.decode_utf8 raw = Some text -> opens text = true ->
        json_loads text = LoadsRaises e ->
        b64_operation a node PressReplace = Raise e).
Proof.
  intros Hp refused opens.
  assert (Eedit : forall edited,
            open_in_editor (initial_text (app_data a)) = Some edited ->
            _edit_leaf open_in_editor a node
            = (new_value <- edit_replacement (app_data a) edited ;;
               Ok (write_edited a [] new_value))).
  { intros edited Hed. unfold _edit_leaf. rewrite Hp. cbn [get_by_path bind].
    now rewrite Hed. }
  assert (Edec : forall src raw,
            app_data a = JStr src -> b64decode src = inr raw ->
            b64_operation a node PressReplace
            = (replacement <-
                 match PyBytes.decode_utf8 raw with
                 | Some text =>
                     if opens text then
                       match json_loads text with
                       | JSONDecodeError => Ok (JStr text)
                       | Parsed parsed => Ok parsed
                       | LoadsRaises e => Raise e
                       end
                     else Ok (JStr text)
                 | None => Ok (JStr (PyBytes.decode_latin1 raw))
                 end ;;
               replace_value
                 (push_screen a (Base64Decode (b64_on_mount "Base64 decode of $" src)))
                 [] replacement)).
  { intros src raw Hdoc Hb. unfold b64_operation, _b64_leaf. rewrite Hp.
    cbn [get_by_path bind]. rewrite Hdoc. cbn [snd fst path_to_str].
    unfold handle_base64, b64_dismiss, b64_on_mount at 2. rewrite Hb.
    destruct (PyBytes.decode_utf8 raw); reflexivity. }
  split; [|split; [|split]].
  - intros edited Hed Hsafe. rewrite (Eedit _ Hed).
    destruct Hsafe as [[s Hs]|Hsafe].
    + rewrite Hs. reflexivity.
    + unfold edit_replacement.
      destruct (app_data a); try reflexivity;
        (destruct (json_loads edited) as [v| |e] eqn:E;
         [reflexivity|reflexivity|exfalso; exact (Hsafe e eq_refl)]).
  - intros edited e Hed Hns Hraise. rewrite (Eedit _ Hed).
    unfold edit_replacement. rewrite Hraise.
    destruct (app_data a); try reflexivity. exfalso. now apply (Hns s).
  - intros src raw Hdoc Hb Hsafe. rewrite (Edec _ _ Hdoc Hb).
    destruct (PyBytes.decode_utf8 raw) as [text|]; [|reflexivity].
    destruct (opens text) eqn:Eo; [|reflexivity].
    destruct (json_loads text) as [v| |e] eqn:E; try reflexivity.
    exfalso. exact (Hsafe text e eq_refl Eo E).
  - intros src raw text e Hdoc Hb Hu Ho Hraise. rewrite (Edec _ _ Hdoc Hb).
    now rewrite Hu, Ho, Hraise.
Qed.

(** X15: the operations that only show something write nothing.  The
    display of a leaf, and a decode that the operator closes or escapes,
    leave the document and the tree as they were. *)
Theorem showing_writes_nothing (a : App) (node : Node) (a' : App) :
  (_display_leaf pretty_repr a node = Ok a' ->
   app_data a' = app_data a /\ tree a' = tree a)
  /\ (forall ev, ev <> PressReplace ->
        b64_operation a node ev = Ok a' ->
        app_data a' = app_data a /\ tree a' = tree a).
Proof.
  split.
  - unfold _display_leaf, _value_as_text.
    destruct (get_by_path _ _) as [v|e]; simpl; [|discriminate].
    intros H. inversion H. auto.
  - intros ev Hev. unfold b64_operation, _b64_leaf.
    destruct (get_by_path _ _) as [v|e]; simpl; [|discriminate].
    destruct v; simpl; try (intros H; inversion H; auto; fail).
    destruct ev; try contradiction; simpl; intros H; inversion H; auto.
Qed.

(** X16: when the decoded bytes are not UTF-8, the screen shows their hex
    dump and proposes the bytes read as Latin-1; accepting writes that
    string as it is, whatever it begins with and whatever [json_loads] would
    make of it. *)
Theorem decode_of_binary (a : App) (node : Node) (src : string) (raw : list byte) :
  get_by_path (app_data a) (path (node_data node)) = Ok (JStr src) ->
  b64decode src = inr raw ->
  PyBytes.decode_utf8 raw = None ->
  let p := path (node_data node) in
  let scr := b64_on_mount ("Base64 decode of " ++ path_to_str p) src in
  b64_result scr
  = Some {| decoded_text := None;
            decoded_bytes_preview := Some (hexdump raw);
            replacement_value := Some (PyBytes.decode_latin1 raw) |}
  /\ b64_operation a node PressReplace
     = replace_value (push_screen a (Base64Decode scr)) p
         (JStr (PyBytes.decode_latin1 raw)).
Proof.
  intros Hget Hb Hu p scr.
  assert (E : b64_result scr
              = Some {| decoded_text := None;
                        decoded_bytes_preview := Some (hexdump raw);
                        replacement_value := Some (PyBytes.decode_latin1 raw) |}).
  { unfold scr, b64_on_mount. now rewrite Hb, Hu. }
  split; [exact E|].
  unfold b64_operation, _b64_leaf. rewrite Hget.
  cbn [bind snd fst]. fold p. fold scr.
  unfold handle_base64. cbn [b64_dismiss]. rewrite E. reflexivity.
Qed.

(** X17: [_edit_leaf] touches the document and nothing else.  When it
    returns, the tree is the tree from before, node for node, and either no
    screen was pushed or the error screen was and the document is unchanged
    too. *)
Theorem edit_leaf_touches_document_only (a : App) (node : Node) (a' : App) :
  _edit_leaf open_in_editor a node = Ok a' ->
  tree a' = tree a
  /\ root_label a' = root_label a
  /\ (screens a' = screens a
      \/ exists e,
           screens a' = screens a ++ [FailureViewer "Error" "Failed to set value: " e]
           /\ app_data a' = app_data a).
Proof.
  unfold _edit_leaf.
  destruct (get_by_path (app_data a) (path (node_data node))) as [old|e];
    simpl; [|discriminate].
  destruct (open_in_editor (initial_text old)) as [edited|].
  - destruct (edit_replacement old edited) as [v|e0]; simpl; [|discriminate].
    unfold write_edited.
    destruct (set_by_path _ _ _) as [[u|e] d] eqn:Es; intros H; inversion H; simpl.
    + auto.
    + repeat split. right. exists e. split; [reflexivity|].
      now apply (set_by_path_raise_unchanged _ _ _ _ _ Es).
  - intros H. inversion H. auto.
Qed.

End MenuFacts.

Lemma unresolved_address_raises_witness :
  _display_leaf Py.json_dumps Sample.number_app Sample.stray_node
  = Raise (KeyError (Key "zz"))
  /\ b64_operation (lib := py) Sample.number_app Sample.stray_node PressClose
     = Raise (KeyError (Key "zz"))
  /\ _edit_leaf (lib := py) Sample.types_hello Sample.number_app Sample.stray_node
     = Raise (KeyError (Key "zz")).
Proof.
  apply (@unresolved_address_raises py Py.json_dumps Sample.types_hello
           Sample.number_app Sample.stray_node (KeyError (Key "zz")) PressClose).
  reflexivity.
Defined.

Lemma py_never_raises (text : string) (e : exn) :
  @json_loads py text <> LoadsRaises e.
Proof. simpl. destruct (Py.json_loads text); discriminate. Qed.

Lemma root_never_replaced_witness :
  _edit_leaf (lib := py) Sample.types_hello Sample.string_app (tree Sample.string_app)
  = Ok (push_screen Sample.string_app
          (FailureViewer "Error" "Failed to set value: "
             (ValueError "Refusing to overwrite root object")))
  /\ b64_operation (lib := py) Sample.string_app (tree Sample.string_app) PressReplace
     = Ok (push_screen
             (push_screen Sample.string_app
                (Base64Decode
                   (b64_on_mount (lib := py) "Base64 decode of $" "eyJhIjoxfQ==")))
             (FailureViewer "Error" "Failed to replace value: "
                (ValueError "Refusing to overwrite root object"))).
Proof.
  destruct (@root_never_replaced py Sample.types_hello Sample.string_app
              (tree Sample.string_app) eq_refl) as (Hedit & _ & Hdecode & _).
  split.
  - apply (Hedit "hello world"%string); [reflexivity|].
    left. now exists "eyJhIjoxfQ=="%string.
  - apply (Hdecode "eyJhIjoxfQ=="%string (list_byte_of_string Sample.object_text));
      [reflexivity|reflexivity|].
    intros text e _ _. apply py_never_raises.
Defined.

Lemma showing_writes_nothing_witness :
  (app_data
     (push_screen Sample.mixed_app
        (ValueViewer "Display a" (Py.json_dumps (JStr "t"))))
   = app_data Sample.mixed_app
   /\ tree
        (push_screen Sample.mixed_app
           (ValueViewer "Display a" (Py.json_dumps (JStr "t"))))
      = tree Sample.mixed_app)
  /\ (app_data
        (push_screen Sample.blob_app
           (Base64Decode
              (b64_on_mount (lib := py) "Base64 decode of blob" "eyJhIjoxfQ==")))
      = app_data Sample.blob_app
      /\ tree
           (push_screen Sample.blob_app
              (Base64Decode
                 (b64_on_mount (lib := py) "Base64 decode of blob" "eyJhIjoxfQ==")))
         = tree Sample.blob_app).
Proof.
  split.
  - apply (proj1 (@showing_writes_nothing py Py.json_dumps Sample.mixed_app
                    Sample.mixed_node _)).
    reflexivity.
  - apply (proj2 (@showing_writes_nothing py Py.json_dumps Sample.blob_app
                    Sample.blob_node _) PressClose).
    + discriminate.
    + reflexivity.
Defined.

Lemma decode_of_binary_witness :
  b64_result (b64_on_mount (lib := py) "Base64 decode of bin" "/w==")
  = Some {| decoded_text := None;
            decoded_bytes_preview := Some (hexdump [xff]);
            replacement_value := Some (PyBytes.decode_latin1 [xff]) |}
  /\ b64_operation (lib := py) Sample.binary_app Sample.binary_node PressReplace
     = replace_value
         (push_screen Sample.binary_app
            (Base64Decode (b64_on_mount (lib := py) "Base64 decode of bin" "/w==")))
         [Key "bin"] (JStr (PyBytes.decode_latin1 [xff])).
Proof.
  apply (@decode_of_binary py Sample.binary_app Sample.binary_node "/w==" [xff]);
    reflexivity.
Defined.

Lemma edit_leaf_touches_document_only_witness :
  tree (with_doc Sample.mixed_app
          (snd (set_by_path Sample.mixed_doc [Key "a"] (JStr "hello world"))))
  = tree Sample.mixed_app
  /\ root_label
       (with_doc Sample.mixed_app
          (snd (set_by_path Sample.mixed_doc [Key "a"] (JStr "hello world"))))
     = root_label Sample.mixed_app
  /\ (screens
        (with_doc Sample.mixed_app
           (snd (set_by_path Sample.mixed_doc [Key "a"] (JStr "hello world"))))
      = screens Sample.mixed_app
      \/ exists e,
           screens
             (with_doc Sample.mixed_app
                (snd (set_by_path Sample.mixed_doc [Key "a"] (JStr "hello world"))))
           = screens Sample.mixed_app
             ++ [FailureViewer "Error" "Failed to set value: " e]
           /\ app_data
                (with_doc Sample.mixed_app
                   (snd (set_by_path Sample.mixed_doc [Key "a"] (JStr "hello world"))))
              = app_data Sample.mixed_app).
Proof.
  apply (@edit_leaf_touches_document_only py Sample.types_hello Sample.mixed_app
           Sample.mixed_node).
  reflexivity.
Defined.

(* ================================================================== *)
(** * The text of a path *)

Lemma append_assoc (a b c : string) : ((a ++ b) ++ c = a ++ (b ++ c))%string.
Proof. induction a as [|x a IH]; simpl; [reflexivity|now rewrite IH]. Qed.

Lemma concat_snoc (sep : string) (l : list string) (y : string) :
  l <> [] ->
  String.concat sep (l ++ [y]) = (String.concat sep l ++ sep ++ y)%string.
Proof.
  induction l as [|x l IH]; [contradiction|]. intros _.
  destruct l as [|x2 l]; [reflexivity|].
  change (String.concat sep ((x :: x2 :: l) ++ [y]))
    with (x ++ sep ++ String.concat sep ((x2 :: l) ++ [y]))%string.
  rewrite IH by discriminate.
  change (String.concat sep (x :: x2 :: l))
    with (x ++ sep ++ String.concat sep (x2 :: l))%string.
  now rewrite !append_assoc.
Qed.

(** X18: the text of an address is built step by step.  The text of a
    child's address is the text of the parent's address, a dot and the step,
    where an index is written in brackets; directly under the root it is
    the step alone, without the [$] that stands for the root. *)
Theorem path_to_str_child (p : Path) (k : step) :
  path_to_str [] = "$"%string
  /\ path_to_str (p ++ [k])
     = match p with
       | [] => step_text k
       | _ :: _ => (path_to_str p ++ "." ++ step_text k)%string
       end.
Proof.
  split; [reflexivity|].
  destruct p as [|x p]; [destruct k; reflexivity|].
  transitivity (String.concat "." (map step_text ((x :: p) ++ [k])));
    [reflexivity|].
  rewrite map_app.
  change (map step_text [k]) with [step_text k].
  rewrite concat_snoc by discriminate. reflexivity.
Qed.

(* ================================================================== *)
(** * The shape of the tree *)

Lemma Forall_replace_nth {A : Type} (P : A -> Prop) (l : list A) : forall i x,
  Forall P l -> P x -> Forall P (replace_nth l i x).
Proof.
  induction l as [|y l IH]; intros [|i] x Hl Hx; simpl; auto;
    inversion Hl; subst; constructor; auto.
Qed.

Lemma nth_error_replace_nth_other {A : Type} (l : list A) : forall i j x,
  i <> j -> nth_error (replace_nth l j x) i = nth_error l i.
Proof.
  induction l as [|y l IH]; intros [|i] [|j] x H; simpl; auto;
    try contradiction.
Qed.

Lemma well_formed_children n :
  well_formed n ->
  Forall (fun c => exists k, path (node_data c) = path (node_data n) ++ [k])
         (node_children n)
  /\ Forall well_formed (node_children n).
Proof. intros H. inversion H; subst. simpl. auto. Qed.

(** A node that differs from a well-formed one in its label, its flags,
    or the kind and the loaded mark of its data is well-formed. *)
Lemma well_formed_redecorated n n' :
  well_formed n ->
  path (node_data n') = path (node_data n) ->
  node_children n' = node_children n ->
  well_formed n'.
Proof.
  intros H Hp Hc. destruct (well_formed_children _ H) as [H1 H2].
  destruct n' as [l m a e cs]. simpl in *. subst cs.
  constructor; [|exact H2]. now rewrite Hp.
Qed.

Lemma populate_well_formed doc node n1 :
  _populate_children doc node = Ok n1 ->
  well_formed n1 /\ path (node_data n1) = path (node_data node).
Proof.
  intros H. destruct (populate_children_inv _ _ _ H) as (value & cs & Hget & Hcs & ->).
  split; [|reflexivity].
  pose proof (children_of_fresh _ _ _ _ Hget Hcs) as Hf.
  constructor.
  - eapply Forall_impl; [|exact Hf]. intros c [Hk _]. exact Hk.
  - eapply Forall_impl; [|exact Hf].
    intros c (_ & v & _ & _ & _ & _ & _ & Hnil).
    destruct c as [l m a e cs']. simpl in Hnil. subst cs'.
    constructor; constructor.
Qed.

Lemma node_at_well_formed (r : NodeRef) : forall t n,
  well_formed t -> node_at t r = Some n -> well_formed n.
Proof.
  induction r as [|i r IH]; intros t n Hw; simpl.
  - intros H. now inversion H; subst.
  - destruct (nth_error (node_children t) i) as [c|] eqn:E; [|discriminate].
    apply IH. destruct (well_formed_children _ Hw) as [_ H2].
    rewrite Forall_forall in H2. apply H2. eapply nth_error_In; eauto.
Qed.

Lemma put_node_path (r : NodeRef) : forall t n n',
  node_at t r = Some n ->
  path (node_data n') = path (node_data n) ->
  path (node_data (put_node t r n')) = path (node_data t).
Proof.
  destruct r as [|i r]; intros t n n'; simpl.
  - intros H. inversion H; subst. auto.
  - destruct (nth_error (node_children t) i); [|discriminate]. reflexivity.
Qed.

Lemma put_node_well_formed (r : NodeRef) : forall t n n',
  well_formed t -> node_at t r = Some n ->
  path (node_data n') = path (node_data n) -> well_formed n' ->
  well_formed (put_node t r n').
Proof.
  induction r as [|i r IH]; intros t n n' Hw Hat Hp Hw'; simpl; [exact Hw'|].
  simpl in Hat.
  destruct (nth_error (node_children t) i) as [c|] eqn:E; [|exact Hw].
  destruct (well_formed_children _ Hw) as [H1 H2].
  constructor.
  - apply Forall_replace_nth; [exact H1|].
    rewrite (put_node_path r c n n' Hat Hp).
    rewrite Forall_forall in H1. apply H1. eapply nth_error_In; eauto.
  - apply Forall_replace_nth; [exact H2|].
    eapply IH; eauto.
    rewrite Forall_forall in H2. apply H2. eapply nth_error_In; eauto.
Qed.

(** In a well-formed tree a node lies as many steps below the root as its
    address is longer than the root's. *)
Lemma well_formed_depth (r : NodeRef) : forall t n,
  well_formed t -> node_at t r = Some n ->
  List.length (path (node_data n)) = List.length (path (node_data t)) + List.length r.
Proof.
  induction r as [|i r IH]; intros t n Hw; simpl.
  - intros H. inversion H; subst. lia.
  - destruct (nth_error (node_children t) i) as [c|] eqn:E; [|discriminate].
    intros Hat. destruct (well_formed_children _ Hw) as [H1 H2].
    rewrite Forall_forall in H1, H2.
    pose proof (nth_error_In _ _ E) as Hin.
    destruct (H1 c Hin) as [k Hk].
    rewrite (IH c n (H2 c Hin) Hat), Hk, length_app. simpl. lia.
Qed.

Lemma at_node_well_formed a r body a' :
  well_formed (tree a) ->
  (forall n n', node_at (tree a) r = Some n -> body n = Ok n' ->
                well_formed n' /\ path (node_data n') = path (node_data n)) ->
  at_node a r body = Ok a' ->
  well_formed (tree a').
Proof.
  intros Hw Hbody. unfold at_node.
  destruct (node_at (tree a) r) as [n|] eqn:Hat.
  - destruct (body n) as [n'|e] eqn:Eb; simpl; [|discriminate].
    intros H. inversion H. simpl.
    destruct (Hbody _ _ eq_refl Eb) as [Hw' Hp].
    eapply put_node_well_formed; eauto.
  - intros H. now inversion H; subst.
Qed.

Lemma expand_populate_well_formed doc n n' :
  (n1 <- _populate_children doc (with_data n (set_loaded (node_data n) false)) ;;
   Ok (expand n1)) = Ok n' ->
  well_formed n' /\ path (node_data n') = path (node_data n).
Proof.
  destruct (_populate_children doc _) as [n1|e] eqn:Ep; simpl; [|discriminate].
  intros H. inversion H. destruct (populate_well_formed _ _ _ Ep) as [Hw Hp].
  split.
  - apply (well_formed_redecorated n1); auto.
  - simpl. rewrite Hp. now destruct n.
Qed.

Lemma refresh_well_formed a p a' :
  well_formed (tree a) ->
  _refresh_tree_after_value_change a p = Ok a' ->
  well_formed (tree a').
Proof.
  intros Hw. unfold _refresh_tree_after_value_change.
  destruct (match p with
            | [] => Ok (app_data a)
            | _ :: _ => get_by_path (app_data a) p
            end) as [new_value|e]; simpl; [|discriminate].
  destruct p as [|s p].
  - destruct (is_branch_kind (kind_of new_value)).
    + destruct (_populate_children _ _) as [n|e] eqn:Ep; simpl; [|discriminate].
      intros H. inversion H. simpl.
      destruct (populate_well_formed _ _ _ Ep) as [Hn _].
      destruct (negb (is_leaf new_value)); [|exact Hn].
      apply (well_formed_redecorated n); auto.
    + intros H. inversion H. simpl. constructor; constructor.
  - destruct (find_from (removelast (s :: p)) (tree a)) as [parent_ref|];
      [|intros H; inversion H; subst; exact Hw].
    destruct (node_at (tree a) parent_ref) as [parent_node|] eqn:Hat;
      [|intros H; inversion H; subst; exact Hw].
    destruct (negb (is_branch_kind (kind (node_data parent_node))));
      [intros H; inversion H; subst; exact Hw|].
    destruct (_populate_children _ _) as [n|e] eqn:Ep; simpl; [|discriminate].
    destruct (populate_well_formed _ _ _ Ep) as [Hn Hp]. simpl in Hp.
    assert (Hp' : path (node_data n) = path (node_data parent_node))
      by (rewrite Hp; now destruct parent_node).
    destruct (negb (is_leaf new_value)).
    + assert (Hw1 : well_formed (put_node (tree a) parent_ref (expand n))).
      { eapply put_node_well_formed; eauto.
        apply (well_formed_redecorated n); auto. }
      destruct (find_from (s :: p) _) as [new_ref|].
      * apply at_node_well_formed; [exact Hw1|].
        intros n0 n0' _. apply expand_populate_well_formed.
      * intros H. inversion H. exact Hw1.
    + intros H. inversion H. simpl.
      eapply put_node_well_formed; eauto.
Qed.

Section ShapeFacts.

Context {lib : PyLib}.

(** X19: the operations keep the tree well-formed, every child one step
    below its parent.  The tree of a mounted application is well-formed,
    and expanding a node, refreshing after a write, the decode operation and
    the edit operation all give a well-formed tree when they are given
    one. *)
Theorem tree_stays_well_formed (a a' : App) :
  well_formed (tree a) ->
  (forall r, on_tree_node_expanded a r = Ok a' -> well_formed (tree a'))
  /\ (forall p, _refresh_tree_after_value_change a p = Ok a' -> well_formed (tree a'))
  /\ (forall node ev, b64_operation a node ev = Ok a' -> well_formed (tree a'))
  /\ (forall editor node, _edit_leaf editor a node = Ok a' -> well_formed (tree a'))
  /\ (forall doc label, well_formed (tree (on_mount doc label))).
Proof.
  intros Hw. split; [|split; [|split; [|split]]].
  - intros r. unfold on_tree_node_expanded. apply at_node_well_formed; [exact Hw|].
    intros n n' Hat.
    destruct (is_branch_kind (kind (node_data n)) && negb (loaded (node_data n))).
    + apply populate_well_formed.
    + intros H. inversion H; subst. split; [|reflexivity].
      eapply node_at_well_formed; eauto.
  - intros p. now apply refresh_well_formed.
  - intros node ev. unfold b64_operation, _b64_leaf.
    destruct (get_by_path _ _) as [v|e]; simpl; [|discriminate].
    assert (Hnone : forall s, Ok (push_screen a s) = Ok a' -> well_formed (tree a')).
    { intros s H. inversion H. exact Hw. }
    destruct v; simpl; try apply Hnone.
    unfold handle_base64.
    destruct (b64_dismiss _ ev) as [r|]; [|apply Hnone].
    destruct (replacement_value r) as [repl|]; [|apply Hnone].
    destruct (b64_replacement r repl) as [v|e0]; simpl; [|discriminate].
    unfold replace_value.
    destruct (set_by_path _ _ _) as [[u|e] d].
    + apply refresh_well_formed. exact Hw.
    + intros H. inversion H. exact Hw.
  - intros editor node H. rewrite (edit_leaf_keeps_tree _ _ _ _ H). exact Hw.
  - intros doc label. simpl. constructor; constructor.
Qed.

End ShapeFacts.

Lemma tree_stays_well_formed_witness :
  well_formed (tree Sample.mixed_app)
  /\ well_formed
       (tree (with_doc Sample.mixed_app
                (snd (set_by_path Sample.mixed_doc [Key "a"] (JStr "hello world"))))).
Proof.
  assert (H0 : well_formed (tree (with_tree (on_mount Sample.mixed_doc "JSON")
                                    (expand (tree (on_mount Sample.mixed_doc "JSON")))))).
  { simpl. constructor; constructor. }
  assert (H1 : well_formed (tree Sample.mixed_app)).
  { apply (proj1 (@tree_stays_well_formed py _ Sample.mixed_app H0) []).
    reflexivity. }
  split; [exact H1|].
  apply (proj1 (proj2 (proj2 (proj2
           (@tree_stays_well_formed py Sample.mixed_app _ H1))))
           Sample.types_hello Sample.mixed_node).
  reflexivity.
Defined.

(* ================================================================== *)
(** * What a refresh leaves under the parent *)

Lemma node_at_app (r1 : NodeRef) : forall t r2,
  node_at t (r1 ++ r2)
  = match node_at t r1 with
    | Some n => node_at n r2
    | None => None
    end.
Proof.
  induction r1 as [|i r1 IH]; intros t r2; simpl; [reflexivity|].
  destruct (nth_error (node_children t) i); [apply IH|reflexivity].
Qed.

Lemma put_node_app (r1 : NodeRef) : forall t n r2 x,
  node_at t r1 = Some n ->
  put_node t (r1 ++ r2) x = put_node t r1 (put_node n r2 x).
Proof.
  induction r1 as [|i r1 IH]; intros t n r2 x; simpl.
  - intros H. now inversion H.
  - destruct (nth_error (node_children t) i) as [c|]; [|discriminate].
    intros H. now rewrite (IH _ _ _ _ H).
Qed.

Lemma node_at_put_node_apart (c : NodeRef) : forall t i j r1 r2 x,
  i <> j ->
  node_at (put_node t (c ++ j :: r2) x) (c ++ i :: r1) = node_at t (c ++ i :: r1).
Proof.
  induction c as [|k c IH]; intros t i j r1 r2 x Hij; simpl.
  - destruct (nth_error (node_children t) j) as [cj|]; [|reflexivity].
    simpl. now rewrite nth_error_replace_nth_other.
  - destruct (nth_error (node_children t) k) as [ck|] eqn:E; simpl.
    + rewrite (nth_error_replace_nth _ _ _ _ E). now apply IH.
    + now rewrite E.
Qed.

(** Two references, one a step longer than the other: the longer one is a
    child of the shorter one, or they part on the way. *)
Lemma refs_child_or_apart (pr : NodeRef) : forall nr,
  List.length nr = S (List.length pr) ->
  (exists j, nr = pr ++ [j])
  \/ (exists c i j r1 r2, i <> j /\ pr = c ++ i :: r1 /\ nr = c ++ j :: r2).
Proof.
  induction pr as [|i pr IH]; intros [|j nr] H; simpl in H; try discriminate.
  - destruct nr; [|discriminate]. left. now exists j.
  - destruct (Nat.eq_dec i j) as [->|Hne].
    + destruct (IH nr) as [[k ->]|(c & i' & j' & r1 & r2 & Hne & -> & ->)]; [lia| |].
      * left. now exists k.
      * right. now exists (j :: c), i', j', r1, r2.
    + right. now exists [], i, j, pr, nr.
Qed.

Lemma populate_shows_current doc node n1 :
  _populate_children doc node = Ok n1 ->
  Forall (shows_current doc) (node_children n1)
  /\ loaded (node_data n1) = true
  /\ path (node_data n1) = path (node_data node)
  /\ kind (node_data n1) = kind (node_data node).
Proof.
  intros H. destruct (populate_children_inv _ _ _ H) as (value & cs & Hget & Hcs & ->).
  split; [|repeat split]. simpl.
  eapply Forall_impl; [|exact (children_of_fresh _ _ _ _ Hget Hcs)].
  intros c (_ & v & Hv & Hk & _). exists v. auto.
Qed.

(** X20: what a refresh after a write at [p] leaves under the parent.  In a
    well-formed tree, when the node found for the parent address is a
    branch, that node is afterwards loaded and each of its children shows
    the kind of the value that the document now holds at the child's
    address; so a child at [p] shows the kind of the new value. *)
Theorem refresh_rederives_children (a : App) (p : Path) (a' : App)
  (pr : NodeRef) (pn : Node) :
  well_formed (tree a) ->
  p <> [] ->
  find_from (removelast p) (tree a) = Some pr ->
  node_at (tree a) pr = Some pn ->
  is_branch_kind (kind (node_data pn)) = true ->
  _refresh_tree_after_value_change a p = Ok a' ->
  exists pn',
    node_at (tree a') pr = Some pn'
    /\ path (node_data pn') = removelast p
    /\ loaded (node_data pn') = true
    /\ Forall (shows_current (app_data a)) (node_children pn').
Proof.
  intros Hw Hne Hfind Hat Hbranch.
  destruct (find_from_sound _ _ _ Hfind) as (pn0 & Hat0 & Hpath).
  rewrite Hat in Hat0. inversion Hat0; subst pn0. clear Hat0.
  unfold _refresh_tree_after_value_change.
  destruct p as [|s p]; [contradiction|].
  destruct (get_by_path (app_data a) (s :: p)) as [new_value|e]; [|discriminate].
  cbn [bind]. rewrite Hfind, Hat, Hbranch. cbn [negb].
  destruct (_populate_children _ _) as [pn1|e] eqn:Ep; [|discriminate].
  cbn [bind].
  destruct (populate_shows_current _ _ _ Ep) as (Hcs & Hl & Hp1 & _).
  assert (Hp : path (node_data pn1) = path (node_data pn))
    by (rewrite Hp1; now destruct pn).
  destruct (negb (is_leaf new_value)).
  - set (t1 := put_node (tree a) pr (expand pn1)).
    assert (Hat1 : node_at t1 pr = Some (expand pn1))
      by (apply (node_at_put_node _ _ pn); exact Hat).
    assert (Hw1 : well_formed t1).
    { apply (put_node_well_formed pr (tree a) pn); auto.
      apply (well_formed_redecorated pn1); auto.
      exact (proj1 (populate_well_formed _ _ _ Ep)). }
    assert (Hdone : forall x, tree x = t1 -> Ok x = Ok a' ->
              exists pn', node_at (tree a') pr = Some pn'
                /\ path (node_data pn') = removelast (s :: p)
                /\ loaded (node_data pn') = true
                /\ Forall (shows_current (app_data a)) (node_children pn')).
    { intros x Hx H. injection H as <-. rewrite Hx.
      exists (expand pn1). split; [exact Hat1|].
      split; [exact (eq_trans Hp Hpath)|]. split; [exact Hl|exact Hcs]. }
    destruct (find_from (s :: p) t1) as [nr|] eqn:Hfind1;
      [|apply (Hdone (with_tree a t1)); reflexivity].
    destruct (find_from_sound _ _ _ Hfind1) as (nn & Hatn & Hpn).
    unfold at_node. cbn [tree with_tree app_data]. rewrite Hatn.
    destruct (_populate_children (app_data a)
                (with_data nn (set_loaded (node_data nn) false)))
      as [nn1|e] eqn:Epn; [|discriminate].
    cbn [bind]. intros H. injection H as <-. cbn [tree with_tree].
    destruct (populate_shows_current _ _ _ Epn) as (_ & _ & Hpn1 & Hkn1).
    assert (Hlen : List.length nr = S (List.length pr)).
    { pose proof (well_formed_depth _ _ _ Hw1 Hatn) as D1.
      pose proof (well_formed_depth _ _ _ Hw1 Hat1) as D2.
      simpl in D2. rewrite Hp, Hpath in D2. rewrite Hpn in D1.
      assert (List.length (s :: p) = S (List.length (removelast (s :: p)))).
      { rewrite (path_split_last (s :: p)) at 1 by discriminate.
        rewrite length_app. simpl. lia. }
      lia. }
    destruct (refs_child_or_apart pr nr Hlen)
      as [[j ->]|(c & i & j & r1 & r2 & Hij & -> & ->)].
    + rewrite (put_node_app pr t1 (expand pn1) [j] _ Hat1).
      rewrite (node_at_put_node pr t1 (expand pn1) _ Hat1).
      rewrite node_at_app, Hat1 in Hatn. simpl in Hatn.
      destruct (nth_error (node_children pn1) j) as [cj|] eqn:Ej; [|discriminate].
      inversion Hatn; subst cj.
      eexists. split; [reflexivity|]. simpl. rewrite Ej. simpl.
      split; [exact (eq_trans Hp Hpath)|]. split; [exact Hl|].
      apply Forall_replace_nth; [exact Hcs|].
      rewrite Forall_forall in Hcs.
      destruct (Hcs nn (nth_error_In _ _ Ej)) as (v & Hv & Hk).
      exists v. simpl. rewrite Hpn1, Hkn1. simpl.
      destruct nn; simpl in *; auto.
    + rewrite node_at_put_node_apart by exact Hij. rewrite Hat1.
      exists (expand pn1). split; [reflexivity|].
      split; [exact (eq_trans Hp Hpath)|]. split; [exact Hl|exact Hcs].
  - intros H. injection H as <-. cbn [tree with_tree].
    rewrite (node_at_put_node _ _ pn pn1 Hat).
    exists pn1. split; [reflexivity|]. split; [exact (eq_trans Hp Hpath)|].
    split; [exact Hl|exact Hcs].
Qed.

Lemma mixed_app_well_formed : well_formed (tree Sample.mixed_app).
Proof.
  vm_compute. constructor.
  - repeat (constructor; [eexists; reflexivity|]). constructor.
  - repeat (constructor; [constructor; constructor|]). constructor.
Qed.

Lemma refresh_rederives_children_witness :
  exists pn',
    node_at
      (tree match _refresh_tree_after_value_change Sample.mixed_app [Key "b"] with
            | Ok x => x
            | Raise _ => Sample.mixed_app
            end) [] = Some pn'
    /\ path (node_data pn') = removelast [Key "b"]
    /\ loaded (node_data pn') = true
    /\ Forall (shows_current (app_data Sample.mixed_app)) (node_children pn').
Proof.
  apply (refresh_rederives_children Sample.mixed_app [Key "b"] _ []
           (tree Sample.mixed_app) mixed_app_well_formed).
  - discriminate.
  - reflexivity.
  - reflexivity.
  - reflexivity.
  - reflexivity.
Defined.

(* ================================================================== *)
(** * The menu and the shortcuts *)

Section DispatchFacts.

Context {lib : PyLib}.
Variable pretty_repr : JSONType -> string.
Variable open_in_editor : string -> option string.
Variable decode_answer : b64_event.

(** X21: the menu starts an operation for its three operation options and
    for nothing else.  Selecting the cancel option, an option without
    identifier, or any other option leaves the application as it is; and a
    shortcut pressed on a node that the tree holds as a branch does
    nothing. *)
Theorem menu_without_operation (a : App) (node : Node) (id : option string) :
  id <> Some "display"%string -> id <> Some "b64"%string ->
  id <> Some "edit"%string ->
  handle_choice pretty_repr open_in_editor decode_answer a node
    (ops_option_selected id) = Ok a
  /\ (kind (node_data node) <> KLeaf ->
      action_edit_selected open_in_editor a (Some node) = Ok a
      /\ action_display_selected pretty_repr a (Some node) = Ok a).
Proof.
  intros Hd Hb He. split.
  - unfold ops_option_selected, handle_choice.
    destruct id as [s|]; [|reflexivity].
    destruct (String.eqb_spec s "cancel"); [reflexivity|].
    destruct (String.eqb_spec s "display"); [congruence|].
    destruct (String.eqb_spec s "b64"); [congruence|].
    destruct (String.eqb_spec s "edit"); [congruence|].
    reflexivity.
  - intros Hk. unfold action_edit_selected, action_display_selected. simpl.
    destruct (kind (node_data node)); auto. contradiction.
Qed.

End DispatchFacts.

Lemma menu_without_operation_witness :
  handle_choice (lib := py) Py.json_dumps Sample.types_hello PressReplace
    Sample.mixed_app Sample.mixed_node (ops_option_selected (Some "cancel"%string))
  = Ok Sample.mixed_app
  /\ (action_edit_selected (lib := py) Sample.types_hello Sample.mixed_app
        (Some (tree Sample.mixed_app)) = Ok Sample.mixed_app
      /\ action_display_selected Py.json_dumps Sample.mixed_app
           (Some (tree Sample.mixed_app)) = Ok Sample.mixed_app).
Proof.
  destruct (@menu_without_operation py Py.json_dumps Sample.types_hello PressReplace
              Sample.mixed_app Sample.mixed_node (Some "cancel"%string))
    as [Hmenu _]; try discriminate.
  destruct (@menu_without_operation py Py.json_dumps Sample.types_hello PressReplace
              Sample.mixed_app (tree Sample.mixed_app) (Some "cancel"%string))
    as [_ Hkeys]; try discriminate.
  split; [exact Hmenu|]. apply Hkeys. discriminate.
Defined.

(* ================================================================== *)
(** * Bytes read as Latin-1 *)

Lemma concat_empty_cons (x : string) (l : list string) :
  String.concat "" (x :: l) = (x ++ String.concat "" l)%string.
Proof.
  destruct l as [|y l]; simpl; [|reflexivity].
  induction x as [|c x IH]; simpl; [reflexivity|now rewrite <- IH].
Qed.

Lemma code_points_plain (c : ascii) (rest : string) :
  PyStr.is_continuation c = false -> starts_clean rest ->
  PyStr.code_points (String c rest) = String c "" :: PyStr.code_points rest
  /\ starts_clean (String c rest).
Proof.
  unfold starts_clean. intros Hc Hrest. simpl.
  destruct (PyStr.code_points rest) as [|hd tl].
  - simpl. auto.
  - rewrite Hrest. simpl. auto.
Qed.

Lemma code_points_pair (c1 c2 : ascii) (rest : string) :
  PyStr.is_continuation c1 = false -> PyStr.is_continuation c2 = true ->
  starts_clean rest ->
  PyStr.code_points (String c1 (String c2 rest))
  = String c1 (String c2 "") :: PyStr.code_points rest
  /\ starts_clean (String c1 (String c2 rest)).
Proof.
  unfold starts_clean. intros H1 H2 Hrest.
  assert (E : PyStr.code_points (String c2 rest)
              = String c2 "" :: PyStr.code_points rest).
  { simpl. destruct (PyStr.code_points rest) as [|hd tl]; [reflexivity|].
    now rewrite Hrest. }
  change (PyStr.code_points (String c1 (String c2 rest)))
    with (match PyStr.code_points (String c2 rest) with
          | hd :: tl =>
              if PyStr.starts_continuation hd then String c1 hd :: tl
              else String c1 "" :: hd :: tl
          | [] => [String c1 ""]
          end).
  rewrite E. simpl. rewrite H2. simpl. auto.
Qed.

Lemma is_continuation_of_N (n : N) :
  (n < 256)%N ->
  PyStr.is_continuation (ascii_of_N n) = ((128 <=? n) && (n <? 192))%N.
Proof.
  intros H. unfold PyStr.is_continuation. now rewrite N_ascii_embedding.
Qed.

Lemma latin1_char_points (n : N) (rest : string) :
  (n < 256)%N -> starts_clean rest ->
  PyStr.code_points (PyBytes.latin1_char n ++ rest)
  = PyBytes.latin1_char n :: PyStr.code_points rest
  /\ starts_clean (PyBytes.latin1_char n ++ rest).
Proof.
  intros Hn Hrest. unfold PyBytes.latin1_char.
  destruct (n <? 128)%N eqn:E.
  - apply N.ltb_lt in E. cbn [append].
    apply code_points_plain; [|exact Hrest].
    rewrite is_continuation_of_N by lia.
    apply andb_false_iff. left. apply N.leb_gt. lia.
  - apply N.ltb_ge in E. cbn [append].
    assert (Hq : (n / 64 < 4)%N) by (apply N.Div0.div_lt_upper_bound; lia).
    assert (Hm : (n mod 64 < 64)%N) by (apply N.mod_lt; discriminate).
    set (q := (n / 64)%N) in *. set (m := (n mod 64)%N) in *.
    clearbody q m. clear E Hn.
    apply code_points_pair; [| |exact Hrest].
    + rewrite is_continuation_of_N by lia.
      apply andb_false_iff. right. apply N.ltb_ge. lia.
    + rewrite is_continuation_of_N by lia.
      apply andb_true_iff. split; [apply N.leb_le|apply N.ltb_lt]; lia.
Qed.

(** X22: reading bytes as Latin-1 drops none of them, the [ignore] of the
    call notwithstanding: the text proposed for bytes that are not UTF-8
    has one code point for every byte, in the order of the bytes. *)
Theorem latin1_keeps_every_byte (raw : list byte) :
  PyStr.code_points (PyBytes.decode_latin1 raw)
  = map (fun b => PyBytes.latin1_char (Byte.to_N b)) raw
  /\ List.length (PyStr.code_points (PyBytes.decode_latin1 raw)) = List.length raw.
Proof.
  assert (H : PyStr.code_points (PyBytes.decode_latin1 raw)
              = map (fun b => PyBytes.latin1_char (Byte.to_N b)) raw
              /\ starts_clean (PyBytes.decode_latin1 raw)).
  { unfold PyBytes.decode_latin1.
    induction raw as [|b raw [IH1 IH2]]; [split; [reflexivity|exact I]|].
    cbn [map]. rewrite concat_empty_cons.
    pose proof (Byte.to_N_bounded b) as Hb.
    destruct (latin1_char_points (Byte.to_N b)
                (String.concat "" (map (fun b => PyBytes.latin1_char (Byte.to_N b)) raw)))
      as [E1 E2]; [lia|exact IH2|].
    split; [|exact E2]. now rewrite E1, IH1. }
  destruct H as [H _]. split; [exact H|].
  now rewrite H, length_map.
Qed.
